(** * lgtm-gitlab: the approval-counting and merge-trigger core of [main.go]

    A shallow embedding of the webhook handler ([LGTMHandler]), the event
    classifier ([checkLgtm]), the reviewer policy ([checkReviewers]), the
    approval counter ([checkLGTMCount]) and the merge trigger
    ([acceptMergeRequest]), with the process globals of [main.go]
    ([db], [mutex], [reviewers], [glURL]) threaded as an explicit state. *)

From Stdlib Require Import ZArith Ascii String List Lia Bool.
From Stdlib Require Import DecimalString DecimalPos DecimalN DecimalZ.
From stdpp Require Import base option gmap strings list fin_maps.

Open Scope string_scope.
Open Scope Z_scope.

(** ** Go's [int] on a 64-bit platform *)

Module GoInt.

Definition min_int : Z := - 2 ^ 63.
Definition max_int : Z := 2 ^ 63 - 1.

Definition in_range (z : Z) : Prop := min_int <= z <= max_int.

Definition in_rangeb (z : Z) : bool := (min_int <=? z) && (z <=? max_int).

(** Two's complement wrap-around of a mathematical integer. *)
Definition wrap (z : Z) : Z := (z + 2 ^ 63) mod 2 ^ 64 - 2 ^ 63.

(** [count++] *)
Definition incr (z : Z) : Z := wrap (z + 1).

(** [x % y] for [y <> 0]: the remainder has the sign of the dividend. *)
Definition rem (x y : Z) : Z := Z.rem x y.

End GoInt.

(** ** The parts of [strconv] and [strings] the program calls *)

Inductive NumError := ErrSyntax | ErrRange.

Module strconv.

(** [strconv.Itoa]: the canonical decimal form, ["-"] first for negatives. *)
Definition Itoa (i : Z) : string := NilZero.string_of_int (Z.to_int i).

(** Splits an optional leading sign off a non-empty string. *)
Definition split_sign (s : string) : bool * string :=
  match s with
  | String "-" rest => (true, rest)
  | String "+" rest => (false, rest)
  | _ => (false, s)
  end.

(** [strconv.Atoi]: an optional sign, then one or more decimal digits and
    nothing else; a value outside [int] is a range error. *)
Definition Atoi (s : string) : Z + NumError :=
  let '(neg, digits) := split_sign s in
  match NilZero.uint_of_string digits with
  | None => inr ErrSyntax
  | Some d =>
      let un := Z.of_N (N.of_uint d) in
      let n := if neg then - un else un in
      if GoInt.in_rangeb n then inl n else inr ErrRange
  end.

End strconv.

Module strings.

Definition is_ascii (c : ascii) : bool := (N_of_ascii c <? 128)%N.

Definition is_lower (c : ascii) : bool :=
  ((97 <=? N_of_ascii c) && (N_of_ascii c <=? 122))%N.

(** ['a' <= c && c <= 'z'] then [c -= 'a' - 'A'] *)
Definition upper_byte (c : ascii) : ascii :=
  if is_lower c then ascii_of_N (N_of_ascii c - 32) else c.

Fixpoint all_bytes (p : ascii -> bool) (s : string) : bool :=
  match s with
  | EmptyString => true
  | String c rest => p c && all_bytes p rest
  end.

Fixpoint map_bytes (f : ascii -> ascii) (s : string) : string :=
  match s with
  | EmptyString => EmptyString
  | String c rest => String (f c) (map_bytes f rest)
  end.

Section ToUpper.
(** The mapping [strings.Map(unicode.ToUpper, s)] that Go applies to a
    string holding a byte outside ASCII; it lives in Go's Unicode
    tables, not in this repository. *)
Variable unicode_upper : string -> string.

(** [strings.ToUpper] *)
Definition ToUpper (s : string) : string :=
  if all_bytes is_ascii s then map_bytes upper_byte s
  else unicode_upper s.
End ToUpper.

End strings.

(** ** [fmt.Fprintf] called with a format and no operand

    [fmt.Fprintf(w, format)] runs [doPrintf(format, nil)]: the bytes of
    the format are copied up to a ["%"], and what follows the ["%"] is
    read as a directive -- flags, argument index, width, precision, verb
    -- for which no operand is left. *)

Module fmt.

Definition percentBangString : string := "%!".
Definition missingString : string := "(MISSING)".
Definition badIndexString : string := "(BADINDEX)".
Definition noVerbString : string := "%!(NOVERB)".
Definition badWidthString : string := "%!(BADWIDTH)".
Definition badPrecString : string := "%!(BADPREC)".

(** [s[n:]], [s[:n]] and [s[i]] *)
Fixpoint drop (n : nat) (s : string) : string :=
  match n, s with
  | S k, String _ rest => drop k rest
  | _, _ => s
  end.

Fixpoint take (n : nat) (s : string) : string :=
  match n, s with
  | S k, String c rest => String c (take k rest)
  | _, _ => EmptyString
  end.

Definition byte_at (s : string) (i : nat) : ascii :=
  match String.get i s with
  | Some c => c
  | None => Ascii.zero
  end.

Definition in_bytes (lo hi : N) (c : ascii) : bool :=
  ((lo <=? N_of_ascii c) && (N_of_ascii c <=? hi))%N.

(** The flags of a directive. *)
Definition is_flag (c : ascii) : bool :=
  match c with
  | "#" | "0" | "+" | "-" | " " => true
  | _ => false
  end%char.

Fixpoint flags_len (s : string) : nat :=
  match s with
  | String c rest => if is_flag c then S (flags_len rest) else O
  | EmptyString => O
  end.

Definition tooLarge (x : Z) : bool := (1000000 <? x) || (x <? -1000000).

(** [parsenum(s, start, end)] on the bytes [s[start:end]]: the number,
    whether one was read, and how many bytes were read -- all of them
    when the number is too large. *)
Fixpoint parsenum_loop (s : string) (num : Z) (isnum : bool) (n all : nat)
  : Z * bool * nat :=
  match s with
  | String c rest =>
      if in_bytes 48 57 c then
        if tooLarge num then (0, false, all)
        else
          parsenum_loop rest (num * 10 + (Z.of_N (N_of_ascii c) - 48)) true
            (S n) all
      else (num, isnum, n)
  | EmptyString => (num, isnum, n)
  end.

Definition parsenum (s : string) : Z * bool * nat :=
  parsenum_loop s 0 false O (String.length s).

(** The index of the first closing bracket of [s], counted from [i]. *)
Fixpoint index_close (s : string) (i : nat) : option nat :=
  match s with
  | String c rest => if Ascii.eqb c "]" then Some i else index_close rest (S i)
  | EmptyString => None
  end.

(** [parseArgNumber(format)], for a [format] that starts with an opening
    bracket: the index, the bytes read and whether the brackets held a
    number. *)
Definition parseArgNumber (format : string) : Z * nat * bool :=
  if (String.length format <? 3)%nat then (0, 1%nat, false)
  else
    match index_close (drop 1 format) 1 with
    | Some i =>
        let '(width, ok, newi) := parsenum (take (i - 1) (drop 1 format)) in
        if negb ok || negb (S newi =? i)%nat then (0, S i, false)
        else (width - 1, S i, true)
    | None => (0, 1%nat, false)
    end.

(** [p.argNumber(argNum, format, i, numArgs)] on [format[i:]]: the
    bytes read, [found], and whether [p.goodArgNum] is left as it is. *)
Definition argNumber (numArgs : Z) (s : string) : nat * bool * bool :=
  match s with
  | String "[" _ =>
      let '(index, wid, ok) := parseArgNumber s in
      if ok && (0 <=? index) && (index <? numArgs) then (wid, true, true)
      else (wid, ok, false)
  | _ => (O, false, true)
  end.

(** The bytes of U+FFFD, which [writeRune] writes for [utf8.RuneError]. *)
Definition RuneError : string :=
  String (ascii_of_N 239) (String (ascii_of_N 191)
    (String (ascii_of_N 189) EmptyString)).

(** The table [first] of [unicode/utf8] for a leading byte from 0x80 on:
    the size of the sequence and the range of its second byte; [None]
    for a byte that starts no sequence. *)
Definition first (c : ascii) : option (nat * N * N) :=
  if in_bytes 194 223 c then Some (2%nat, 128, 191)%N
  else if in_bytes 224 224 c then Some (3%nat, 160, 191)%N
  else if in_bytes 225 236 c then Some (3%nat, 128, 191)%N
  else if in_bytes 237 237 c then Some (3%nat, 128, 159)%N
  else if in_bytes 238 239 c then Some (3%nat, 128, 191)%N
  else if in_bytes 240 240 c then Some (4%nat, 144, 191)%N
  else if in_bytes 241 243 c then Some (4%nat, 128, 191)%N
  else if in_bytes 244 244 c then Some (4%nat, 128, 143)%N
  else None.

(** The verb at the front of a non-empty [s] and its size: the byte
    itself below 0x80, else [utf8.DecodeRuneInString]; with the rune come
    the bytes [writeRune] writes for it, which are those read, or U+FFFD
    for an invalid sequence (it counts one byte). *)
Definition decode_verb (s : string) : string * nat :=
  if in_bytes 0 127 (byte_at s 0) then (take 1 s, 1%nat)
  else
    match first (byte_at s 0) with
    | None => (RuneError, 1%nat)
    | Some (sz, lo, hi) =>
        if (String.length s <? sz)%nat then (RuneError, 1%nat)
        else if negb (in_bytes lo hi (byte_at s 1)) then (RuneError, 1%nat)
        else if (sz <=? 2)%nat then (take 2 s, 2%nat)
        else if negb (in_bytes 128 191 (byte_at s 2)) then (RuneError, 1%nat)
        else if (sz <=? 3)%nat then (take 3 s, 3%nat)
        else if negb (in_bytes 128 191 (byte_at s 3)) then (RuneError, 1%nat)
        else (take 4 s, 4%nat)
    end.

(** One directive of [doPrintf] with an empty operand list: what is
    written for [format], the bytes that follow a ["%"], and how many of
    them are read. *)
Definition directive (format : string) : string * nat :=
  let numArgs := 0 in
  (* Do we have flags? *)
  let i := flags_len format in
  (* Do we have an explicit argument index? *)
  let '(wid, afterIndex, good) := argNumber numArgs (drop i format) in
  let i := (i + wid)%nat in
  let goodArgNum := good in
  (* Do we have width? *)
  let '(out, i, afterIndex, goodArgNum) :=
    match drop i format with
    | String "*" _ => (badWidthString, S i, false, goodArgNum)
    | rest =>
        let '(_, widPresent, n) := parsenum rest in
        (EmptyString, (i + n)%nat, afterIndex,
         if afterIndex && widPresent then false else goodArgNum)
    end in
  (* Do we have precision? *)
  let '(out, i, afterIndex, goodArgNum) :=
    match drop i format with
    | String "." _ =>
        let i := S i in
        let goodArgNum := if afterIndex then false else goodArgNum in
        let '(wid, afterIndex, good) := argNumber numArgs (drop i format) in
        let i := (i + wid)%nat in
        let goodArgNum := goodArgNum && good in
        match drop i format with
        | String "*" _ => (out +:+ badPrecString, S i, false, goodArgNum)
        | rest =>
            let '(_, _, n) := parsenum rest in
            (out, (i + n)%nat, afterIndex, goodArgNum)
        end
    | _ => (out, i, afterIndex, goodArgNum)
    end in
  let '(i, goodArgNum) :=
    if afterIndex then (i, goodArgNum)
    else
      let '(wid, _, good) := argNumber numArgs (drop i format) in
      ((i + wid)%nat, goodArgNum && good) in
  match drop i format with
  | EmptyString => (out +:+ noVerbString, i)
  | String _ _ as rest =>
      let '(verb, size) := decode_verb rest in
      let i := (i + size)%nat in
      if String.eqb verb "%" then (out +:+ "%", i)
      else if negb goodArgNum then
        (out +:+ percentBangString +:+ verb +:+ badIndexString, i)
      else (out +:+ percentBangString +:+ verb +:+ missingString, i)
  end.

(** [doPrintf(format, nil)]; [skip] counts the bytes of the format that
    the directive in progress has read. *)
Fixpoint doPrintf (skip : nat) (format : string) : string :=
  match format with
  | EmptyString => EmptyString
  | String c rest =>
      match skip with
      | S k => doPrintf k rest
      | O =>
          if Ascii.eqb c "%" then
            let '(out, n) := directive rest in out +:+ doPrintf n rest
          else String c (doPrintf O rest)
      end
  end.

(** [fmt.Fprintf(w, format)]: the bytes written to [w]. *)
Definition Fprintf (format : string) : string := doPrintf O format.

End fmt.

(** ** Data model *)

(** A Go [error] value, identified with its [Error()] text. *)
Inductive error := Err (msg : string).

Definition Error (e : error) : string := let 'Err msg := e in msg.

Definition ErrInvalidRequest : error := Err "invalid request body".
Definition ErrInvalidContentType : error := Err "invalid content type".
Definition RespOK : string := "OK".

Definition ObjectNote : string := "note".
Definition NoteableTypeMergeRequest : string := "MergeRequest".
Definition NoteLGTM : string := "LGTM".
Definition StatusCanbeMerged : string := "can_be_merged".
Definition bucketName : string := "lgtm".

(** The command-line flags the core reads. *)
Record Flags := {
  privateToken : string;
  validLGTMCount : Z;
  lgtmNote : string;
}.

(** [Conf]: the allowed reviewers. *)
Record Conf := { Reviewers : list string }.

(** [Comment]: the fields of the webhook payload that the program reads;
    every other wire field is decoded and never looked at. *)
Record CommentUser := { Username : string }.

Record CommentObjectAttributes := {
  Note : string;
  NoteableType : string;
}.

Record CommentMergeParams := { ForceRemoveSourceBranch : string }.

Record CommentMergeRequest := {
  MergeStatus : string;
  Iid : Z;
  MergeParams : CommentMergeParams;
}.

Record Comment := {
  ObjectKind : string;
  User : CommentUser;
  ProjectID : Z;
  ObjectAttributes : CommentObjectAttributes;
  MergeRequest : CommentMergeRequest;
}.

(** [url.URL] *)
Record URL := {
  Scheme : string;
  Opaque : string;
  UserInfo : option string;
  Host : string;
  Path : string;
  RawPath : string;
  ForceQuery : bool;
  RawQuery : string;
  Fragment : string;
}.

Definition with_Path (u : URL) (p : string) : URL :=
  {| Scheme := Scheme u; Opaque := Opaque u; UserInfo := UserInfo u;
     Host := Host u; Path := p; RawPath := RawPath u;
     ForceQuery := ForceQuery u; RawQuery := RawQuery u;
     Fragment := Fragment u |}.

(** An outbound [http.Request] as [acceptMergeRequest] builds it. *)
Record Request := {
  req_method : string;
  req_url : string;
  req_header : list (string * string);
  req_body : string;
}.

(** What the program reads of an [http.Response]. *)
Record Response := {
  StatusCode : Z;
  Status : string;
}.

Inductive Level := LevelInfo | LevelWarn | LevelError | LevelFatal.

(** One logrus entry: level and message (the structured fields are left
    out). *)
Record LogEntry := { log_level : Level; log_msg : string }.

(** The failures the storage layer may answer with during one
    increment-and-check, one slot per bolt call. *)
Record Faults := {
  fail_Begin : option error;
  fail_CreateBucket : option error;
  fail_Put : option error;
  fail_Commit : option error;
}.

Definition no_faults : Faults :=
  {| fail_Begin := None; fail_CreateBucket := None;
     fail_Put := None; fail_Commit := None |}.

(** What the outside world answers while one event is processed. *)
Record Env := {
  reviewers_yaml : option string;     (* ioutil.ReadFile: None on error *)
  faults : Faults;
  http_Do : Request -> Response + error;
}.

(** The process globals and the observable effects so far. *)
Record World := {
  db : gmap string (gmap string string);  (* committed buckets of the bolt file *)
  db_rwlock : bool;                       (* bolt's writer lock: an open read-write tx *)
  mutex : bool;
  reviewers : Conf;
  glURL : URL;
  logs : list LogEntry;                   (* oldest first *)
  sent : list Request;                    (* handed to http.DefaultClient.Do, oldest first *)
}.

Definition set_db (d : gmap string (gmap string string)) (w : World) : World :=
  {| db := d; db_rwlock := db_rwlock w; mutex := mutex w;
     reviewers := reviewers w; glURL := glURL w; logs := logs w;
     sent := sent w |}.

Definition set_db_rwlock (b : bool) (w : World) : World :=
  {| db := db w; db_rwlock := b; mutex := mutex w;
     reviewers := reviewers w; glURL := glURL w; logs := logs w;
     sent := sent w |}.

Definition set_mutex (b : bool) (w : World) : World :=
  {| db := db w; db_rwlock := db_rwlock w; mutex := b;
     reviewers := reviewers w; glURL := glURL w; logs := logs w;
     sent := sent w |}.

Definition set_reviewers (c : Conf) (w : World) : World :=
  {| db := db w; db_rwlock := db_rwlock w; mutex := mutex w;
     reviewers := c; glURL := glURL w; logs := logs w;
     sent := sent w |}.

Definition set_glURL (u : URL) (w : World) : World :=
  {| db := db w; db_rwlock := db_rwlock w; mutex := mutex w;
     reviewers := reviewers w; glURL := u; logs := logs w;
     sent := sent w |}.

Definition add_log (l : Level) (msg : string) (w : World) : World :=
  {| db := db w; db_rwlock := db_rwlock w; mutex := mutex w;
     reviewers := reviewers w; glURL := glURL w;
     logs := (logs w ++ [ {| log_level := l; log_msg := msg |} ])%list;
     sent := sent w |}.

Definition add_sent (r : Request) (w : World) : World :=
  {| db := db w; db_rwlock := db_rwlock w; mutex := mutex w;
     reviewers := reviewers w; glURL := glURL w; logs := logs w;
     sent := (sent w ++ [r])%list |}.

(** ** Effects: how a call ends *)

Inductive outcome (A : Type) : Type :=
| Returns (a : A)   (* the function returned [a] *)
| Exits             (* logrus.Fatal...: the process exits *)
| Panics            (* a run-time panic unwinds the goroutine *)
| Blocks.           (* waits on a lock that is never released *)

Arguments Returns {A} a.
Arguments Exits {A}.
Arguments Panics {A}.
Arguments Blocks {A}.

Definition M (A : Type) : Type := World -> outcome A * World.

Definition ret {A} (a : A) : M A := fun w => (Returns a, w).

Definition bind {A B} (m : M A) (k : A -> M B) : M B :=
  fun w =>
    match m w with
    | (Returns a, w') => k a w'
    | (Exits, w') => (Exits, w')
    | (Panics, w') => (Panics, w')
    | (Blocks, w') => (Blocks, w')
    end.

Definition get : M World := fun w => (Returns w, w).
Definition modify (f : World -> World) : M unit := fun w => (Returns tt, f w).
Definition fatal {A} : M A := fun w => (Exits, w).
Definition panic {A} : M A := fun w => (Panics, w).
Definition block {A} : M A := fun w => (Blocks, w).

Definition log (l : Level) (msg : string) : M unit := modify (add_log l msg).

Declare Scope go_scope.
Delimit Scope go_scope with go.
Notation "x <- m ;; k" := (bind m (fun x => k))
  (at level 100, m at next level, right associativity) : go_scope.
Notation "m ;;; k" := (bind m (fun _ => k))
  (at level 100, right associativity) : go_scope.
Open Scope go_scope.

(** [mu.Lock(); defer mu.Unlock(); body]: the deferred unlock runs when the
    body returns and when it panics; not when the process exits, and a body
    that never finishes keeps the lock. *)
Definition with_mutex {A} (body : M A) : M A :=
  fun w =>
    if mutex w then (Blocks, w)
    else
      match body (set_mutex true w) with
      | (Returns a, w') => (Returns a, set_mutex false w')
      | (Panics, w') => (Panics, set_mutex false w')
      | (Exits, w') => (Exits, w')
      | (Blocks, w') => (Blocks, w')
      end.

(** ** The program *)

Section Program.

Variable flags : Flags.

(** Library functions the program calls whose definitions are outside
    this repository: Go's Unicode upper-casing, [yaml.Unmarshal] into a
    [*Conf], [json.Marshal] of a [map[string]string], the [String] method
    of [url.URL] and [url.Parse] (through which [http.NewRequest]
    validates its URL). *)
Variable unicode_upper : string -> string.
Variable yaml_Unmarshal : string -> Conf -> Conf + error.
Variable json_Marshal : list (string * string) -> string + error.
Variable URL_String : URL -> string.
Variable url_Parse : string -> URL + error.

(** [func (c *Conf) getReviewers() *Conf], called on the global
    [reviewers]; [None] is the [nil] result. *)
Definition getReviewers (env : Env) : M (option Conf) :=
  match reviewers_yaml env with
  | None => ret None
  | Some yamlFile =>
      w <- get ;;
      match yaml_Unmarshal yamlFile (reviewers w) with
      | inr err => log LevelFatal ("Unmarshal: " +:+ Error err) ;;; fatal
      | inl c => modify (set_reviewers c) ;;; ret (Some c)
      end
  end.

(** The [for i := range reviewers.Reviewers] loop. *)
Fixpoint is_reviewer (rs : list string) (username : string) : bool :=
  match rs with
  | [] => false
  | r :: rest => if String.eqb r username then true else is_reviewer rest username
  end.

Definition checkReviewers (env : Env) (comment : Comment) : M bool :=
  r <- getReviewers env ;;
  w <- get ;;
  match r with
  | None => ret true
  | Some _ =>
      if Nat.eqb (length (Reviewers (reviewers w))) 0 then ret true
      else if is_reviewer (Reviewers (reviewers w)) (Username (User comment))
      then ret true
      else
        log LevelWarn
          ("User " +:+ Username (User comment) +:+ " is not allowed to do LGTM") ;;;
        ret false
  end.

(** [checkLGTMCount], inside [mutex.Lock(); defer mutex.Unlock()].
    bolt runs one read-write transaction at a time: [db.Begin(true)] waits
    for the writer lock, and only [tx.Commit] (which rolls back by itself
    when it fails) and [tx.Rollback] give it back.  An early [return]
    below leaves the transaction as it is. *)
Definition checkLGTMCount_locked (env : Env) (comment : Comment)
  : M (bool * option error) :=
  w <- get ;;
  (* tx, err := db.Begin(true) *)
  if db_rwlock w then block else
  match fail_Begin (faults env) with
  | Some err => ret (false, Some err)
  | None =>
  modify (set_db_rwlock true) ;;;
  let tx := db w in
  (* bucket, err := tx.CreateBucketIfNotExists([]byte(bucketName)) *)
  match fail_CreateBucket (faults env) with
  | Some err => ret (false, Some err)
  | None =>
  let bucket := default ∅ (tx !! bucketName) in
  let countKey := strconv.Itoa (Iid (MergeRequest comment)) in
  let countByte := default EmptyString (bucket !! countKey) in
  count <-
    (if Nat.ltb 0 (String.length countByte) then
       match strconv.Atoi countByte with
       | inl n => ret n
       | inr _ => log LevelWarn "wrong count" ;;; ret 0
       end
     else ret 0) ;;
  let count := GoInt.incr count in
  (* bucket.Put(countKey, []byte(strconv.Itoa(count))) *)
  match fail_Put (faults env) with
  | Some err => ret (false, Some err)
  | None =>
  let tx := <[bucketName := <[countKey := strconv.Itoa count]> bucket]> tx in
  if validLGTMCount flags =? 0 then panic else
  let checkStatus := GoInt.rem count (validLGTMCount flags) =? 0 in
  (* tx.Commit() *)
  match fail_Commit (faults env) with
  | Some err =>
      modify (set_db_rwlock false) ;;;
      ret (checkStatus, Some err)
  | None =>
      modify (fun w => set_db_rwlock false (set_db tx w)) ;;;
      log LevelInfo "MR count" ;;;
      ret (checkStatus, None)
  end end end end.

Definition checkLGTMCount (env : Env) (comment : Comment)
  : M (bool * option error) :=
  with_mutex (checkLGTMCount_locked env comment).

(** [fmt.Sprintf("/api/v4/projects/%d/merge_requests/%d/merge", ...)] *)
Definition merge_path (projectID mergeRequestIID : Z) : string :=
  "/api/v4/projects/" +:+ strconv.Itoa projectID +:+
  "/merge_requests/" +:+ strconv.Itoa mergeRequestIID +:+ "/merge".

Definition acceptMergeRequest (env : Env) (projectID mergeRequestIID : Z)
    (shouldRemoveSourceBranch : string) : M unit :=
  let params := [("should_remove_source_branch", shouldRemoveSourceBranch)] in
  match json_Marshal params with
  | inr err => log LevelError "json marshal failed"
  | inl bodyBytes =>
      w <- get ;;
      modify (set_glURL
                (with_Path (glURL w)
                   (Path (glURL w) +:+ merge_path projectID mergeRequestIID))) ;;;
      w <- get ;;
      let urlStr := URL_String (glURL w) in
      match url_Parse urlStr with
      | inr err => log LevelError "http NewRequest failed"
      | inl _ =>
          let req :=
            {| req_method := "PUT";
               req_url := urlStr;
               req_header := [("Conntent-Type", "application/json");
                              ("PRIVATE-TOKEN", privateToken flags)];
               req_body := bodyBytes |} in
          modify (add_sent req) ;;;
          match http_Do env req with
          | inr err => log LevelError "execute request failed"
          | inl resp =>
              if StatusCode resp =? 200 then
                log LevelInfo "accept merge request successfully"
              else if StatusCode resp =? 405 then
                log LevelWarn "it has some conflicts and can not be merged"
              else if StatusCode resp =? 406 then
                log LevelWarn "merge request is already merged or closed"
              else log LevelError "accept merge failed"
          end
      end
  end.

(** The comparison [strings.ToUpper(note) != *lgtmNote], negated. *)
Definition is_lgtm_note (note : string) : bool :=
  String.eqb (strings.ToUpper unicode_upper note) (lgtmNote flags).

(** [checkLgtm] after its four checks (from the [TODO] comment on): count
    the approval, then merge or not. *)
Definition checkLgtm_approved (env : Env) (comment : Comment) : M (option error) :=
  log LevelInfo "comment" ;;;
  r <- checkLGTMCount env comment ;;
  match r with
  | (_, Some err) => log LevelError "check LGTM count failed" ;;; ret None
  | (canbeMerged, None) =>
      (if canbeMerged &&
          String.eqb (MergeStatus (MergeRequest comment)) StatusCanbeMerged
       then
         log LevelInfo "The MR can be merged." ;;;
         acceptMergeRequest env (ProjectID comment)
           (Iid (MergeRequest comment))
           (ForceRemoveSourceBranch (MergeParams (MergeRequest comment)))
       else log LevelInfo "The MR can not be merged.") ;;;
      ret None
  end.

(** [checkLgtm]; the result is the returned [error], always [nil]. *)
Definition checkLgtm (env : Env) (comment : Comment) : M (option error) :=
  if negb (String.eqb (ObjectKind comment) ObjectNote) then ret None else
  ok <- checkReviewers env comment ;;
  if negb ok then ret None else
  if negb (String.eqb (NoteableType (ObjectAttributes comment))
             NoteableTypeMergeRequest) then ret None else
  if negb (is_lgtm_note (Note (ObjectAttributes comment))) then ret None else
  checkLgtm_approved env comment.

End Program.

(** ** The webhook endpoint *)

(** What [LGTMHandler] reads of the inbound [http.Request]. *)
Record HookRequest := {
  hook_Method : string;
  hook_ContentType : string;     (* r.Header.Get("Content-Type") *)
  hook_Body : option string;     (* None: r.Body == nil *)
}.

(** What [LGTMHandler] does: the response it writes and the goroutine it
    starts, if any. *)
Record HookResult := {
  hook_status : Z;
  hook_response : string;
  hook_spawned : option Comment;   (* go checkLgtm(comment) *)
}.

Section Handler.

(** [json.NewDecoder(r.Body).Decode(&comment)] *)
Variable json_Decode : string -> Comment + error.

(** The body of [LGTMHandler] up to its return: [errRet] and the
    goroutine started. *)
Definition LGTMHandler_body (r : HookRequest) : option error * option Comment :=
  if negb (String.eqb (hook_ContentType r) "application/json") then
    (Some ErrInvalidContentType, None)
  else if negb (String.eqb (hook_Method r) "POST") then
    (Some ErrInvalidRequest, None)
  else
    match hook_Body r with
    | None => (Some ErrInvalidRequest, None)
    | Some body =>
        match json_Decode body with
        | inr err => (Some err, None)
        | inl comment => (None, Some comment)
        end
    end.

(** The deferred function writes the response from [errRet]; [errMsg] is
    the format of [fmt.Fprintf(w, errMsg)]. *)
Definition LGTMHandler (r : HookRequest) : HookResult :=
  let '(errRet, spawned) := LGTMHandler_body r in
  match errRet with
  | Some e =>
      let errMsg := "error occurs:" +:+ Error e in
      {| hook_status := 400; hook_response := fmt.Fprintf errMsg;
         hook_spawned := spawned |}
  | None =>
      {| hook_status := 200; hook_response := RespOK;
         hook_spawned := spawned |}
  end.

(** The request is malformed: wrong content type, wrong method, no body,
    or a body that does not decode. *)
Definition malformed (r : HookRequest) : Prop :=
  hook_ContentType r <> "application/json"
  \/ hook_Method r <> "POST"
  \/ hook_Body r = None
  \/ exists body err, hook_Body r = Some body /\ json_Decode body = inr err.

End Handler.

(** No byte of [s] is a percent sign. *)
Definition plain (s : string) : bool :=
  strings.all_bytes (fun c => negb (Ascii.eqb c "%")) s.

(** ** Concurrent calls of [checkLGTMCount]

    Each [go checkLgtm(comment)] that reaches [checkLGTMCount] is a thread
    walking through the statements of that function; the threads share the
    process globals and interleave statement by statement.  Storage
    failures are left out here: every bolt call succeeds. *)

Inductive pc : Type :=
| AtLock                                     (* before mutex.Lock() *)
| AtBegin                                    (* before db.Begin(true) *)
| AtCreateBucket (tx : gmap string (gmap string string))
| AtGet (tx : gmap string (gmap string string)) (bucket : gmap string string)
| AtPut (tx : gmap string (gmap string string)) (bucket : gmap string string)
        (count : Z)                          (* after count++ *)
| AtCommit (tx : gmap string (gmap string string)) (checkStatus : bool)
| AtUnlock (checkStatus : bool)              (* the deferred mutex.Unlock() *)
| Finished (checkStatus : bool).             (* returned (checkStatus, nil) *)

Record thread := { th_comment : Comment; th_pc : pc }.

Section Concurrent.

Variable flags : Flags.

(** One statement of one thread; [None] when the thread cannot move: it
    waits for a lock, it has returned, or (zero threshold) the division
    panics and takes the whole process down. *)
Definition thread_step (comment : Comment) (p : pc) (w : World)
  : option (pc * World) :=
  match p with
  | AtLock =>
      if mutex w then None else Some (AtBegin, set_mutex true w)
  | AtBegin =>
      if db_rwlock w then None
      else Some (AtCreateBucket (db w), set_db_rwlock true w)
  | AtCreateBucket tx =>
      Some (AtGet tx (default ∅ (tx !! bucketName)), w)
  | AtGet tx bucket =>
      let countKey := strconv.Itoa (Iid (MergeRequest comment)) in
      let countByte := default EmptyString (bucket !! countKey) in
      if Nat.ltb 0 (String.length countByte) then
        match strconv.Atoi countByte with
        | inl n => Some (AtPut tx bucket (GoInt.incr n), w)
        | inr _ =>
            Some (AtPut tx bucket (GoInt.incr 0),
                  add_log LevelWarn "wrong count" w)
        end
      else Some (AtPut tx bucket (GoInt.incr 0), w)
  | AtPut tx bucket count =>
      let countKey := strconv.Itoa (Iid (MergeRequest comment)) in
      let tx' := <[bucketName := <[countKey := strconv.Itoa count]> bucket]> tx in
      if validLGTMCount flags =? 0 then None
      else Some (AtCommit tx' (GoInt.rem count (validLGTMCount flags) =? 0), w)
  | AtCommit tx checkStatus =>
      Some (AtUnlock checkStatus,
            add_log LevelInfo "MR count" (set_db_rwlock false (set_db tx w)))
  | AtUnlock checkStatus =>
      Some (Finished checkStatus, set_mutex false w)
  | Finished _ => None
  end.

(** The scheduler picks any thread that can move. *)
Inductive sys_step : World * list thread -> World * list thread -> Prop :=
| sys_step_at l1 comment p l2 w p' w' :
    thread_step comment p w = Some (p', w') ->
    sys_step (w, (l1 ++ {| th_comment := comment; th_pc := p |} :: l2)%list)
             (w', (l1 ++ {| th_comment := comment; th_pc := p' |} :: l2)%list).

Definition spawn (comments : list Comment) : list thread :=
  map (fun c => {| th_comment := c; th_pc := AtLock |}) comments.

Definition finished (t : thread) : bool :=
  match th_pc t with Finished _ => true | _ => false end.

(** One thread run alone, for at most [fuel] statements. *)
Fixpoint run_thread (fuel : nat) (comment : Comment) (p : pc) (w : World)
  : pc * World :=
  match fuel with
  | O => (p, w)
  | S fuel' =>
      match thread_step comment p w with
      | Some (p', w') => run_thread fuel' comment p' w'
      | None => (p, w)
      end
  end.

End Concurrent.

(** Counting the threads that satisfy [p]. *)
Fixpoint count_if (p : thread -> bool) (ts : list thread) : nat :=
  match ts with
  | [] => O
  | t :: rest => ((if p t then 1 else 0) + count_if p rest)%nat
  end.

(** The thread is inside [mutex.Lock() ... mutex.Unlock()]. *)
Definition in_cs (t : thread) : bool :=
  match th_pc t with
  | AtLock | Finished _ => false
  | _ => true
  end.

(** The thread has committed its increment. *)
Definition committed (t : thread) : bool :=
  match th_pc t with
  | AtUnlock _ | Finished _ => true
  | _ => false
  end.

(** The thread's call is for merge request [m]. *)
Definition for_mr (m : Z) (t : thread) : bool :=
  Iid (MergeRequest (th_comment t)) =? m.

(** How many of the calls are for merge request [m]. *)
Definition calls_for (m : Z) (comments : list Comment) : nat :=
  count_if (for_mr m) (spawn comments).

(** How many calls for merge request [m] have committed. *)
Definition committed_for (m : Z) (ts : list thread) : nat :=
  count_if (fun t => for_mr m t && committed t) ts.

(** The statements a thread still has to execute. *)
Definition pc_rank (p : pc) : nat :=
  match p with
  | AtLock => 7
  | AtBegin => 6
  | AtCreateBucket _ => 5
  | AtGet _ _ => 4
  | AtPut _ _ _ => 3
  | AtCommit _ _ => 2
  | AtUnlock _ => 1
  | Finished _ => 0
  end.

Fixpoint steps_left (ts : list thread) : nat :=
  match ts with
  | [] => O
  | t :: rest => (pc_rank (th_pc t) + steps_left rest)%nat
  end.

(** ** Reading the store *)

(** The raw bytes stored for merge request [m], if any. *)
Definition stored (w : World) (m : Z) : option string :=
  db w !! bucketName ≫= (fun bucket => bucket !! strconv.Itoa m).

(** The count [checkLGTMCount] takes from the stored bytes: 0 when they are
    absent, empty or not an [int]. *)
Definition count_of (v : option string) : Z :=
  match v with
  | Some s => match strconv.Atoi s with inl n => n | inr _ => 0 end
  | None => 0
  end.

(** The integer that a string writes in decimal, read off the bytes
    alone: an optional sign, then one or more digits and nothing else;
    the integer is not bounded.  This is what an entry of the store
    means, whatever [strconv.Atoi] makes of it. *)
Definition digit_of (c : ascii) : option Z :=
  option_map Z.of_nat (Ascii.is_nat c).

Fixpoint digits_value (acc : Z) (s : string) : option Z :=
  match s with
  | EmptyString => Some acc
  | String c rest =>
      match digit_of c with
      | Some d => digits_value (10 * acc + d) rest
      | None => None
      end
  end.

Definition written_int (s : string) : option Z :=
  match s with
  | EmptyString => None
  | String c rest =>
      if Ascii.eqb c "-" then
        match rest with
        | EmptyString => None
        | String _ _ => option_map Z.opp (digits_value 0 rest)
        end
      else if Ascii.eqb c "+" then
        match rest with
        | EmptyString => None
        | String _ _ => digits_value 0 rest
        end
      else digits_value 0 s
  end.

(** No lock is held: no call is in progress and no transaction is open. *)
Definition idle (w : World) : Prop := mutex w = false /\ db_rwlock w = false.

(** [k] sequential calls of [checkLGTMCount], the [i]-th with environment
    [envs i] and comment [comments i]; the world after them (a call that
    does not return leaves the world where it stopped). *)
Fixpoint after_calls (flags : Flags) (envs : nat -> Env) (comments : nat -> Comment)
    (k : nat) (w : World) : World :=
  match k with
  | O => w
  | S k' =>
      let w' := after_calls flags envs comments k' w in
      snd (checkLGTMCount flags (envs k') (comments k') w')
  end.

(** The bucket entry that a call for merge request [m] writes into the
    committed store [d]. *)
Definition db_incr (d : gmap string (gmap string string)) (m : Z)
  : gmap string (gmap string string) :=
  let bucket := default ∅ (d !! bucketName) in
  <[bucketName :=
      <[strconv.Itoa m :=
          strconv.Itoa (GoInt.incr (count_of (bucket !! strconv.Itoa m)))]>
        bucket]> d.

(** ** The invariant of concurrent calls *)

(** What the thread inside the critical section knows about the shared
    state at each of its statements. *)
Definition local_ok (w : World) (t : thread) : Prop :=
  let m := Iid (MergeRequest (th_comment t)) in
  match th_pc t with
  | AtLock => True
  | AtBegin => db_rwlock w = false
  | AtCreateBucket tx => db_rwlock w = true /\ tx = db w
  | AtGet tx bucket =>
      db_rwlock w = true /\ tx = db w /\ bucket = default ∅ (db w !! bucketName)
  | AtPut tx bucket count =>
      db_rwlock w = true /\ tx = db w /\ bucket = default ∅ (db w !! bucketName)
      /\ count = GoInt.incr (count_of (stored w m))
  | AtCommit tx _ => db_rwlock w = true /\ tx = db_incr (db w) m
  | AtUnlock _ => db_rwlock w = false
  | Finished _ => True
  end.

(** The invariant of every interleaving that starts from [w0] with one
    thread per comment: the stored counts are the initial ones plus the
    committed calls, the mutex is held exactly when one thread is inside
    the critical section, and that thread's view of the store is current. *)
Record Inv (w0 : World) (comments : list Comment) (w : World) (ts : list thread)
  : Prop := {
  inv_counts : forall m,
    count_of (stored w m)
    = count_of (stored w0 m) + Z.of_nat (committed_for m ts);
  inv_cs : count_if in_cs ts = if mutex w then 1%nat else 0%nat;
  inv_free : mutex w = false -> db_rwlock w = false;
  inv_local : Forall (fun t => in_cs t = true -> local_ok w t) ts;
  inv_total : forall m, count_if (for_mr m) ts = calls_for m comments;
}.

(** ** Sample inputs *)

Module Sample.

(** The default flags with a token. *)
Definition flags : Flags :=
  {| privateToken := "s3cr3t"; validLGTMCount := 2; lgtmNote := NoteLGTM |}.

(** The approval keyword configured in lower case. *)
Definition flags_lower : Flags :=
  {| privateToken := "s3cr3t"; validLGTMCount := 2; lgtmNote := "lgtm" |}.

Definition base_url : URL :=
  {| Scheme := "https"; Opaque := EmptyString; UserInfo := None;
     Host := "your.gitlab.com"; Path := EmptyString; RawPath := EmptyString;
     ForceQuery := false; RawQuery := EmptyString; Fragment := EmptyString |}.

(** A freshly started process: empty bolt file, no lock held, no reviewers
    loaded, the base URL parsed. *)
Definition world : World :=
  {| db := ∅; db_rwlock := false; mutex := false;
     reviewers := {| Reviewers := [] |}; glURL := base_url;
     logs := []; sent := [] |}.

Definition ok_response : Response := {| StatusCode := 200; Status := "200 OK" |}.

(** No [reviewers.yaml], a healthy store, GitLab answers 200. *)
Definition env : Env :=
  {| reviewers_yaml := None; faults := no_faults;
     http_Do := fun _ => inl ok_response |}.

(** As [env], but [bucket.Put] fails. *)
Definition env_put_fails : Env :=
  {| reviewers_yaml := None;
     faults := {| fail_Begin := None; fail_CreateBucket := None;
                  fail_Put := Some (Err "incompatible value");
                  fail_Commit := None |};
     http_Do := fun _ => inl ok_response |}.

(** As [env], but [tx.Commit] fails. *)
Definition env_commit_fails : Env :=
  {| reviewers_yaml := None;
     faults := {| fail_Begin := None; fail_CreateBucket := None;
                  fail_Put := None;
                  fail_Commit := Some (Err "write error") |};
     http_Do := fun _ => inl ok_response |}.

(** As [env], with a [reviewers.yaml] on disk. *)
Definition env_with_file : Env :=
  {| reviewers_yaml := Some "reviewers: [alice, bob"; faults := no_faults;
     http_Do := fun _ => inl ok_response |}.

Definition approval (note status : string) : Comment :=
  {| ObjectKind := "note";
     User := {| Username := "carol" |};
     ProjectID := 7;
     ObjectAttributes := {| Note := note; NoteableType := "MergeRequest" |};
     MergeRequest :=
       {| MergeStatus := status; Iid := 42;
          MergeParams := {| ForceRemoveSourceBranch := "true" |} |} |}.

(** Stand-ins for the library functions where a closed example needs
    them. *)
Definition url_string (u : URL) : string :=
  Scheme u +:+ "://" +:+ Host u +:+ Path u.
Definition url_parse (s : string) : URL + error := inl base_url.
Definition marshal (kv : list (string * string)) : string + error :=
  inl (String.concat "," (map (fun p => fst p +:+ "=" +:+ snd p) kv)).
Definition yaml_rejects (file : string) (c : Conf) : Conf + error :=
  inr (Err "yaml: did not find expected ',' or ']'").
Definition yaml_alice_bob (file : string) (c : Conf) : Conf + error :=
  inl {| Reviewers := ["alice"; "bob"] |}.

(** [yaml.Unmarshal] of a document that sets no key, as an empty
    [reviewers.yaml] is: the [Conf] is left as it was. *)
Definition yaml_keeps (file : string) (c : Conf) : Conf + error := inl c.

(** [reviewers.yaml] is there, and empty. *)
Definition env_empty_file : Env :=
  {| reviewers_yaml := Some EmptyString; faults := no_faults;
     http_Do := fun _ => inl ok_response |}.

(** The process after an earlier call has loaded [alice] and [bob]. *)
Definition world_loaded : World :=
  {| db := ∅; db_rwlock := false; mutex := false;
     reviewers := {| Reviewers := ["alice"; "bob"] |}; glURL := base_url;
     logs := []; sent := [] |}.

(** A process whose store holds [count] for merge request 42. *)
Definition world_counting (count : string) : World :=
  {| db := {[ bucketName := {[ "42" := count ]} ]};
     db_rwlock := false; mutex := false;
     reviewers := {| Reviewers := [] |}; glURL := base_url;
     logs := []; sent := [] |}.

End Sample.

(** ** Process start *)

Section Startup.

Variable flags : Flags.
Variable url_Parse : string -> URL + error.

(** [parseURL]: sets the global [glURL], or panics with the parse error. *)
Definition parseURL (urlStr : string) : M unit :=
  match url_Parse urlStr with
  | inr err => panic
  | inl u => modify (set_glURL u)
  end.

(** [main] up to [http.HandleFunc]: the checks of the required flags,
    [bolt.Open] (its answer is [opened]: the buckets of the data file, or
    the error) and [parseURL].  It returns when the handler is registered;
    what follows in [main] serves requests and never returns. *)
Definition main (gitlabURL : string)
    (opened : gmap string (gmap string string) + error) : M unit :=
  (if String.eqb (privateToken flags) EmptyString
   then log LevelFatal "private token is required" ;;; fatal
   else ret tt) ;;;
  (if String.eqb gitlabURL EmptyString
   then log LevelFatal "gitlab url is required" ;;; fatal
   else ret tt) ;;;
  match opened with
  | inr err => log LevelFatal "open local db failed" ;;; fatal
  | inl buckets =>
      modify (set_db buckets) ;;;
      parseURL gitlabURL
  end.

End Startup.

(** ** Sequences of events and of merge calls *)

Section Sequences.

Variable flags : Flags.
Variable unicode_upper : string -> string.
Variable yaml_Unmarshal : string -> Conf -> Conf + error.
Variable json_Marshal : list (string * string) -> string + error.
Variable URL_String : URL -> string.
Variable url_Parse : string -> URL + error.

(** [k] events handled one after the other by [checkLgtm], the [i]-th
    with environment [envs i] and comment [comments i]; the world after
    them. *)
Fixpoint after_events (envs : nat -> Env) (comments : nat -> Comment)
    (k : nat) (w : World) : World :=
  match k with
  | O => w
  | S k' =>
      let w' := after_events envs comments k' w in
      snd (checkLgtm flags unicode_upper yaml_Unmarshal json_Marshal
             URL_String url_Parse (envs k') (comments k') w')
  end.

(** Merge calls [(projectID, mergeRequestIID, shouldRemoveSourceBranch)]
    made one after the other, the [i]-th answered by [envs i]; the world
    after them. *)
Fixpoint after_merges (envs : nat -> Env) (calls : list (Z * Z * string))
    (i : nat) (w : World) : World :=
  match calls with
  | [] => w
  | (projectID, iid, remove) :: rest =>
      after_merges envs rest (S i)
        (snd (acceptMergeRequest flags json_Marshal URL_String url_Parse
                (envs i) projectID iid remove w))
  end.

End Sequences.

(** The URL that [acceptMergeRequest] builds for an event when [glURL]
    is [u]: [u] with the path template of the event appended to its
    path. *)
Definition built_url (u : URL) (comment : Comment) : URL :=
  with_Path u
    (Path u +:+ merge_path (ProjectID comment) (Iid (MergeRequest comment))).

(** The path templates of a list of merge calls, one after the other. *)
Fixpoint merge_paths (calls : list (Z * Z * string)) : string :=
  match calls with
  | [] => EmptyString
  | (projectID, iid, _) :: rest => merge_path projectID iid +:+ merge_paths rest
  end.

(** How many of the first [k] comments are for merge request [m]. *)
Fixpoint calls_before (comments : nat -> Comment) (m : Z) (k : nat) : nat :=
  match k with
  | O => O
  | S k' =>
      ((if (Iid (MergeRequest (comments k')) =? m)%Z then 1 else 0)
       + calls_before comments m k')%nat
  end.

(** Equality of two byte strings up to the case of ASCII letters. *)
Definition same_letter (c1 c2 : ascii) : bool :=
  Ascii.eqb c1 c2
  || (strings.is_lower c1 && Ascii.eqb (strings.upper_byte c1) c2)
  || (strings.is_lower c2 && Ascii.eqb (strings.upper_byte c2) c1).

Fixpoint equal_fold (s1 s2 : string) : bool :=
  match s1, s2 with
  | EmptyString, EmptyString => true
  | String c1 r1, String c2 r2 => same_letter c1 c2 && equal_fold r1 r2
  | _, _ => false
  end.

(** The log entry of a refused commenter. *)
Definition refusal (comment : Comment) : LogEntry :=
  {| log_level := LevelWarn;
     log_msg := "User " +:+ Username (User comment) +:+ " is not allowed to do LGTM" |}.

(** ** Threshold decisions of concurrent calls *)

(** The thread has committed and its call reports [thresholdReached]. *)
Definition reported (t : thread) : bool :=
  match th_pc t with
  | AtUnlock true | Finished true => true
  | _ => false
  end.

(** How many calls for merge request [m] have committed and report
    [thresholdReached]. *)
Definition reached_for (m : Z) (ts : list thread) : nat :=
  count_if (fun t => for_mr m t && reported t) ts.

(** A thread about to commit has decided on the count it is committing. *)
Definition decided_ok (flags : Flags) (w : World) (t : thread) : Prop :=
  match th_pc t with
  | AtCommit _ checkStatus =>
      checkStatus
      = (GoInt.rem
           (GoInt.incr (count_of (stored w (Iid (MergeRequest (th_comment t))))))
           (validLGTMCount flags) =? 0)
  | _ => True
  end.

(** The decisions reported so far for each merge request are as many as
    the multiples of the threshold its count has passed. *)
Record Decisions (flags : Flags) (w0 w : World) (ts : list thread) : Prop := {
  dec_reached : forall m,
    Z.of_nat (reached_for m ts)
    = (count_of (stored w0 m) + Z.of_nat (committed_for m ts))
        / validLGTMCount flags
      - count_of (stored w0 m) / validLGTMCount flags;
  dec_local : Forall (decided_ok flags w) ts;
}.

(** ** More sample inputs *)

Module Cases.

(** [-lgtm_count=0] *)
Definition flags_zero : Flags :=
  {| privateToken := "s3cr3t"; validLGTMCount := 0; lgtmNote := NoteLGTM |}.

(** [-lgtm_count=-3] *)
Definition flags_negative : Flags :=
  {| privateToken := "s3cr3t"; validLGTMCount := -3; lgtmNote := NoteLGTM |}.

(** No [-token]. *)
Definition flags_no_token : Flags :=
  {| privateToken := EmptyString; validLGTMCount := 2; lgtmNote := NoteLGTM |}.

(** GitLab answers 405. *)
Definition env_conflict : Env :=
  {| reviewers_yaml := None; faults := no_faults;
     http_Do := fun _ =>
       inl {| StatusCode := 405; Status := "405 Method Not Allowed" |} |}.

(** An approval for merge request [iid]. *)
Definition approval_for (iid : Z) : Comment :=
  {| ObjectKind := "note";
     User := {| Username := "carol" |};
     ProjectID := 7;
     ObjectAttributes := {| Note := "lgtm"; NoteableType := "MergeRequest" |};
     MergeRequest :=
       {| MergeStatus := "can_be_merged"; Iid := iid;
          MergeParams := {| ForceRemoveSourceBranch := "true" |} |} |}.

(** Approvals that alternate between merge requests 42 and 43. *)
Definition alternating (i : nat) : Comment :=
  approval_for (if Nat.even i then 42 else 43).

End Cases.

(** * Verification *)

(** ** Decimal conversions *)

Lemma string_of_uint_split_sign d :
  strconv.split_sign (NilZero.string_of_uint d) = (false, NilZero.string_of_uint d).
Proof. destruct d; reflexivity. Qed.

Lemma Atoi_Itoa z : GoInt.in_range z -> strconv.Atoi (strconv.Itoa z) = inl z.
Proof.
  intros Hz.
  assert (Hb : GoInt.in_rangeb z = true).
  { unfold GoInt.in_rangeb. destruct Hz as [H1 H2].
    apply Z.leb_le in H1, H2. now rewrite H1, H2. }
  destruct z as [|p|p]; [reflexivity| |].
  - unfold strconv.Itoa, strconv.Atoi. cbn [Z.to_int NilZero.string_of_int].
    rewrite string_of_uint_split_sign.
    rewrite NilZero.usu by apply DecimalPos.Unsigned.to_uint_nonnil.
    unfold N.of_uint. rewrite DecimalPos.Unsigned.of_to. cbn [Z.of_N].
    now rewrite Hb.
  - unfold strconv.Itoa, strconv.Atoi.
    cbn [Z.to_int NilZero.string_of_int strconv.split_sign].
    rewrite NilZero.usu by apply DecimalPos.Unsigned.to_uint_nonnil.
    unfold N.of_uint. rewrite DecimalPos.Unsigned.of_to.
    change (- Z.of_N (N.pos p)) with (Z.neg p).
    now rewrite Hb.
Qed.

Lemma to_int_not_nil z :
  Z.to_int z <> Decimal.Pos Decimal.Nil /\ Z.to_int z <> Decimal.Neg Decimal.Nil.
Proof.
  destruct z as [|p|p]; cbn; split; try discriminate;
    intros [= H]; now apply (DecimalPos.Unsigned.to_uint_nonnil p).
Qed.

Lemma Itoa_inj z z' : strconv.Itoa z = strconv.Itoa z' -> z = z'.
Proof.
  unfold strconv.Itoa. intros H.
  apply DecimalZ.to_int_inj.
  destruct (to_int_not_nil z) as [Hp Hn], (to_int_not_nil z') as [Hp' Hn'].
  pose proof (NilZero.isi _ Hp Hn) as E. rewrite H in E.
  rewrite (NilZero.isi _ Hp' Hn') in E. congruence.
Qed.

Lemma Itoa_nonempty z : Nat.ltb 0 (String.length (strconv.Itoa z)) = true.
Proof.
  unfold strconv.Itoa.
  destruct z as [|p|p]; cbn [Z.to_int NilZero.string_of_int]; try reflexivity.
  destruct (Pos.to_uint p); reflexivity.
Qed.

(** ** Go's [int] *)

Lemma wrap_in_range z : GoInt.in_range z -> GoInt.wrap z = z.
Proof.
  unfold GoInt.in_range, GoInt.min_int, GoInt.max_int, GoInt.wrap. intros H.
  rewrite Z.mod_small; lia.
Qed.

Lemma incr_below_max z :
  GoInt.min_int <= z < GoInt.max_int -> GoInt.incr z = z + 1.
Proof.
  intros H. apply wrap_in_range. unfold GoInt.in_range. lia.
Qed.

Lemma incr_max : GoInt.incr GoInt.max_int = GoInt.min_int.
Proof. reflexivity. Qed.

Lemma wrap_range z : GoInt.in_range (GoInt.wrap z).
Proof.
  unfold GoInt.in_range, GoInt.min_int, GoInt.max_int, GoInt.wrap.
  pose proof (Z.mod_pos_bound (z + 2 ^ 63) (2 ^ 64) ltac:(lia)). lia.
Qed.

Lemma Atoi_range s n : strconv.Atoi s = inl n -> GoInt.in_range n.
Proof.
  unfold strconv.Atoi. destruct (strconv.split_sign s) as [neg digits].
  destruct (NilZero.uint_of_string digits); [|discriminate].
  destruct (GoInt.in_rangeb _) eqn:E; [|discriminate].
  intros [= <-]. unfold GoInt.in_rangeb in E.
  apply andb_prop in E as [E1 E2]. apply Z.leb_le in E1, E2.
  split; assumption.
Qed.

Lemma count_of_range v : GoInt.in_range (count_of v).
Proof.
  unfold count_of. destruct v as [s|]; [|now compute].
  destruct (strconv.Atoi s) eqn:E; [|now compute].
  eapply Atoi_range; eauto.
Qed.

(** ** The approval counter *)

Ltac unfold_monad :=
  unfold log, bind, ret, get, modify, block, panic, fatal in *.

Ltac unfold_counter :=
  unfold checkLGTMCount, with_mutex, checkLGTMCount_locked in *; unfold_monad.

Ltac simpl_world :=
  cbn [db db_rwlock mutex reviewers glURL logs sent
       set_db set_db_rwlock set_mutex set_reviewers set_glURL add_log add_sent
       fst snd] in *.

Lemma stored_bucket w m :
  stored w m = default ∅ (db w !! bucketName) !! strconv.Itoa m.
Proof.
  unfold stored. destruct (db w !! bucketName); cbn; [reflexivity|].
  now rewrite lookup_empty.
Qed.

Section CounterFacts.

Variable flags : Flags.
Variable env : Env.
Variable comment : Comment.

Let m := Iid (MergeRequest comment).
Let t := validLGTMCount flags.

(** What a call returns when every storage step succeeds. *)
Lemma checkLGTMCount_success w :
  idle w -> faults env = no_faults -> t <> 0 ->
  exists w',
    checkLGTMCount flags env comment w =
      (Returns (GoInt.rem (GoInt.incr (count_of (stored w m))) t =? 0, None), w')
    /\ db w' = db_incr (db w) m
    /\ idle w'
    /\ reviewers w' = reviewers w /\ glURL w' = glURL w /\ sent w' = sent w.
Proof.
  intros [Hm Hl] Hf Ht. unfold_counter. rewrite Hm. simpl_world. rewrite Hl, Hf.
  cbn [no_faults fail_Begin fail_CreateBucket fail_Put fail_Commit].
  fold m t. apply Z.eqb_neq in Ht. rewrite stored_bucket.
  unfold db_incr.
  set (o := default ∅ (db w !! bucketName) !! strconv.Itoa m).
  destruct o as [[|c s]|];
    cbn [from_option id String.length Nat.ltb Nat.leb count_of].
  - change (strconv.Atoi EmptyString) with (@inr Z _ ErrSyntax).
    cbv beta iota. rewrite Ht. cbv beta iota.
    eexists; split; [reflexivity|]. simpl_world. unfold idle. simpl_world. auto.
  - destruct (strconv.Atoi (String c s)); cbv beta iota; rewrite Ht; cbv beta iota;
      (eexists; split; [reflexivity|]; simpl_world; unfold idle; simpl_world; auto).
  - cbv beta iota. rewrite Ht. cbv beta iota.
    eexists; split; [reflexivity|]. simpl_world. unfold idle. simpl_world. auto.
Qed.

(** A call that returns without error took the success path. *)
Lemma checkLGTMCount_returns_nil w b w' :
  checkLGTMCount flags env comment w = (Returns (b, None), w') ->
  idle w /\ t <> 0
  /\ b = (GoInt.rem (GoInt.incr (count_of (stored w m))) t =? 0)
  /\ db w' = db_incr (db w) m
  /\ idle w'
  /\ reviewers w' = reviewers w /\ glURL w' = glURL w /\ sent w' = sent w.
Proof.
  intros H. unfold_counter. fold m t in H. rewrite stored_bucket. unfold db_incr.
  destruct (mutex w) eqn:Hm; [discriminate|]. simpl_world.
  destruct (db_rwlock w) eqn:Hl; [discriminate|].
  destruct (fail_Begin (faults env)); [discriminate|]. cbv beta iota in H.
  destruct (fail_CreateBucket (faults env)); [discriminate|].
  destruct (default ∅ (db w !! bucketName) !! strconv.Itoa m) as [[|c s]|];
    cbn [from_option id String.length Nat.ltb Nat.leb count_of] in *;
    [change (strconv.Atoi EmptyString) with (@inr Z _ ErrSyntax) in *
    |destruct (strconv.Atoi (String c s))
    |];
    cbv beta iota in H;
    (destruct (fail_Put (faults env)); [discriminate|]);
    (destruct (t =? 0) eqn:Ht; [discriminate|]);
    (destruct (fail_Commit (faults env)); [discriminate|]);
    apply Z.eqb_neq in Ht;
    injection H as <- <-; unfold idle; simpl_world; auto 10.
Qed.

End CounterFacts.

Lemma stored_incr_same w w' m :
  db w' = db_incr (db w) m ->
  stored w' m = Some (strconv.Itoa (GoInt.incr (count_of (stored w m)))).
Proof.
  intros H. unfold stored at 1. rewrite H. unfold db_incr.
  rewrite lookup_insert_eq. cbn. rewrite lookup_insert_eq.
  now rewrite stored_bucket.
Qed.

Lemma stored_incr_other w w' m m' :
  db w' = db_incr (db w) m -> m' <> m -> stored w' m' = stored w m'.
Proof.
  intros H Hne. unfold stored at 1. rewrite H. unfold db_incr.
  rewrite lookup_insert_eq. cbn. rewrite lookup_insert_ne.
  - now rewrite stored_bucket.
  - intros E. apply Itoa_inj in E. congruence.
Qed.

(** Keys that are not the decimal form of [m], and buckets other than
    ["lgtm"], keep their bytes. *)
Lemma db_incr_other_key d m key :
  key <> strconv.Itoa m ->
  db_incr d m !! bucketName ≫= (fun b => b !! key) = d !! bucketName ≫= (fun b => b !! key).
Proof.
  intros Hne. unfold db_incr. rewrite lookup_insert_eq. cbn.
  rewrite lookup_insert_ne by congruence.
  destruct (d !! bucketName); cbn; [reflexivity|]. now rewrite lookup_empty.
Qed.

Lemma db_incr_other_bucket d m name :
  name <> bucketName -> db_incr d m !! name = d !! name.
Proof. intros Hne. unfold db_incr. now rewrite lookup_insert_ne by congruence. Qed.

Lemma count_of_Itoa z :
  GoInt.in_range z -> count_of (Some (strconv.Itoa z)) = z.
Proof. intros H. unfold count_of. now rewrite Atoi_Itoa. Qed.

Section Sequential.

Variable flags : Flags.
Variable envs : nat -> Env.
Variable comments : nat -> Comment.
Variable m : Z.
Variable w0 : World.

Let t := validLGTMCount flags.

Hypothesis threshold_pos : 1 <= t.
Hypothesis storage_ok : forall i, faults (envs i) = no_faults.
Hypothesis same_mr : forall i, Iid (MergeRequest (comments i)) = m.
Hypothesis start_idle : idle w0.
Hypothesis start_fresh : stored w0 m = None.

Lemma after_calls_state k :
  Z.of_nat k <= GoInt.max_int ->
  idle (after_calls flags envs comments k w0)
  /\ count_of (stored (after_calls flags envs comments k w0) m) = Z.of_nat k
  /\ ((1 <= k)%nat ->
      stored (after_calls flags envs comments k w0) m
      = Some (strconv.Itoa (Z.of_nat k))).
Proof.
  induction k as [|k IH]; intros Hk.
  - cbn [after_calls]. rewrite start_fresh. repeat split; auto; try apply start_idle.
    intros; lia.
  - destruct IH as (Hidle & Hcount & _); [lia|].
    cbn [after_calls].
    destruct (checkLGTMCount_success flags (envs k) (comments k) _ Hidle
                (storage_ok k) ltac:(fold t; lia))
      as (w' & Hcall & Hdb & Hidle' & _).
    rewrite Hcall. cbn [snd]. rewrite same_mr in Hdb.
    pose proof (stored_incr_same _ _ _ Hdb) as Hs.
    rewrite Hcount in Hs.
    rewrite incr_below_max in Hs by (unfold GoInt.min_int, GoInt.max_int in *; lia).
    replace (Z.of_nat k + 1) with (Z.of_nat (S k)) in Hs by lia.
    rewrite Hs. split; [assumption|]. split; [|reflexivity].
    apply count_of_Itoa. unfold GoInt.in_range, GoInt.min_int. lia.
Qed.

(** C1. From a store with no entry for merge request [m], with a
    threshold [t >= 1] and a storage layer that does not fail, the [k]-th
    of [k] sequential calls of [checkLGTMCount] for [m] returns
    [thresholdReached = true] exactly when [k mod t = 0] (and no error),
    and the count stored after it is [k] -- for every [k] that Go's
    [int] can hold. *)
Theorem checkLGTMCount_sequential k :
  (1 <= k)%nat -> Z.of_nat k <= GoInt.max_int ->
  fst (checkLGTMCount flags (envs (pred k)) (comments (pred k))
         (after_calls flags envs comments (pred k) w0))
  = Returns (Z.of_nat k mod t =? 0, None)
  /\ stored (after_calls flags envs comments k w0) m
     = Some (strconv.Itoa (Z.of_nat k))
  /\ count_of (stored (after_calls flags envs comments k w0) m) = Z.of_nat k.
Proof.
  intros Hk1 Hk.
  destruct (after_calls_state k Hk) as (_ & Hc & Hs).
  split; [|split; auto].
  destruct (after_calls_state (pred k) ltac:(lia)) as (Hidle & Hcount & _).
  destruct (checkLGTMCount_success flags (envs (pred k)) (comments (pred k)) _ Hidle
              (storage_ok _) ltac:(fold t; lia))
    as (w' & Hcall & _).
  rewrite Hcall. cbn [fst]. rewrite same_mr, Hcount.
  rewrite incr_below_max by (unfold GoInt.min_int, GoInt.max_int in *; lia).
  replace (Z.of_nat (pred k) + 1) with (Z.of_nat k) by lia.
  unfold GoInt.rem. fold t. rewrite Z.rem_mod_nonneg by lia. reflexivity.
Qed.

End Sequential.

Lemma checkLGTMCount_sequential_witness :
  fst (checkLGTMCount Sample.flags Sample.env (Sample.approval "LGTM" "can_be_merged")
         (after_calls Sample.flags (fun _ => Sample.env)
            (fun _ => Sample.approval "LGTM" "can_be_merged") 3 Sample.world))
  = Returns (4 mod 2 =? 0, None)
  /\ stored (after_calls Sample.flags (fun _ => Sample.env)
               (fun _ => Sample.approval "LGTM" "can_be_merged") 4 Sample.world) 42
     = Some (strconv.Itoa 4)
  /\ count_of (stored (after_calls Sample.flags (fun _ => Sample.env)
                         (fun _ => Sample.approval "LGTM" "can_be_merged") 4
                         Sample.world) 42) = 4.
Proof.
  apply (checkLGTMCount_sequential Sample.flags (fun _ => Sample.env)
           (fun _ => Sample.approval "LGTM" "can_be_merged") 42 Sample.world)
    with (k := 4%nat).
  - cbn. lia.
  - reflexivity.
  - reflexivity.
  - split; reflexivity.
  - reflexivity.
  - lia.
  - vm_compute. discriminate.
Defined.

(** ** What the stored bytes mean *)

(** [strconv.Atoi] reads the integer that the bytes write. *)
Lemma digits_value_acc s acc :
  match NilEmpty.uint_of_string s with
  | Some d => digits_value (Z.pos acc) s = Some (Z.pos (Pos.of_uint_acc d acc))
  | None => digits_value (Z.pos acc) s = None
  end.
Proof.
  revert acc. induction s as [|a s IH]; intros acc; [reflexivity|].
  cbn [NilEmpty.uint_of_string digits_value].
  destruct a as [[] [] [] [] [] [] [] []]; cbn [digit_of Ascii.is_nat option_map Z.of_nat Pos.of_succ_nat Pos.succ];
    try (destruct (NilEmpty.uint_of_string s); reflexivity);
    match goal with
    | |- context [digits_value (10 * Z.pos acc + ?k) s] =>
        pose proof (IH (Pos.of_succ_nat (Z.to_nat (10 * Z.pos acc + k - 1)))) as IH';
        replace (Z.pos (Pos.of_succ_nat (Z.to_nat (10 * Z.pos acc + k - 1))))
          with (10 * Z.pos acc + k) in IH' by lia;
        destruct (NilEmpty.uint_of_string s) as [d|]; cbn [uint_of_char];
        [rewrite IH'; cbn [Pos.of_uint_acc]; do 3 f_equal; lia | exact IH']
    end.
Qed.

Lemma digits_value_0 s :
  match NilEmpty.uint_of_string s with
  | Some d => digits_value 0 s = Some (Z.of_N (Pos.of_uint d))
  | None => digits_value 0 s = None
  end.
Proof.
  induction s as [|a s IH]; [reflexivity|].
  cbn [NilEmpty.uint_of_string digits_value].
  destruct a as [[] [] [] [] [] [] [] []]; cbn [digit_of Ascii.is_nat option_map Z.of_nat Pos.of_succ_nat Pos.succ];
    try (destruct (NilEmpty.uint_of_string s); reflexivity);
    try (cbn [Z.mul Z.add]; destruct (NilEmpty.uint_of_string s) as [d|];
         cbn [uint_of_char Pos.of_uint]; exact IH);
    match goal with
    | |- context [digits_value (10 * 0 + ?k) s] =>
        change (10 * 0 + k) with k;
        pose proof (digits_value_acc s (Z.to_pos k)) as H;
        change (Z.pos (Z.to_pos k)) with k in H;
        destruct (NilEmpty.uint_of_string s) as [d|];
        cbn [uint_of_char Pos.of_uint Z.of_N]; exact H
    end.
Qed.

Lemma split_sign_unsigned c rest :
  Ascii.eqb c "-" = false -> Ascii.eqb c "+" = false ->
  strconv.split_sign (String c rest) = (false, String c rest).
Proof.
  destruct c as [[] [] [] [] [] [] [] []]; cbn; intros; try reflexivity;
    discriminate.
Qed.

Lemma Atoi_written s :
  strconv.Atoi s
  = match written_int s with
    | Some n => if GoInt.in_rangeb n then inl n else inr ErrRange
    | None => inr ErrSyntax
    end.
Proof.
  destruct s as [|c rest]; [reflexivity|].
  unfold strconv.Atoi, written_int.
  destruct (Ascii.eqb_spec c "-") as [->|Hm].
  { cbn [strconv.split_sign]. destruct rest as [|c' r]; [reflexivity|].
    unfold NilZero.uint_of_string, N.of_uint.
    pose proof (digits_value_0 (String c' r)) as H.
    destruct (NilEmpty.uint_of_string (String c' r)) as [d|]; rewrite H;
      reflexivity. }
  destruct (Ascii.eqb_spec c "+") as [->|Hp].
  { cbn [strconv.split_sign]. destruct rest as [|c' r]; [reflexivity|].
    unfold NilZero.uint_of_string, N.of_uint.
    pose proof (digits_value_0 (String c' r)) as H.
    destruct (NilEmpty.uint_of_string (String c' r)) as [d|]; rewrite H;
      reflexivity. }
  rewrite split_sign_unsigned by (now apply Ascii.eqb_neq).
  unfold NilZero.uint_of_string, N.of_uint.
  pose proof (digits_value_0 (String c rest)) as H.
  destruct (NilEmpty.uint_of_string (String c rest)) as [d|]; rewrite H;
    reflexivity.
Qed.

Example written_int_samples :
  written_int "42" = Some 42 /\ written_int "-7" = Some (-7)
  /\ written_int "+15" = Some 15 /\ written_int "007" = Some 7
  /\ written_int "9223372036854775808" = Some (GoInt.max_int + 1)
  /\ written_int "1x" = None /\ written_int "-" = None
  /\ written_int EmptyString = None /\ written_int " 1" = None.
Proof. repeat split. Qed.

(** The count that [checkLGTMCount] takes from an entry, by what the
    entry writes. *)
Lemma count_of_written s :
  count_of (Some s)
  = match written_int s with
    | Some n => if GoInt.in_rangeb n then n else 0
    | None => 0
    end.
Proof.
  unfold count_of. rewrite Atoi_written.
  destruct (written_int s) as [n|]; [|reflexivity].
  now destruct (GoInt.in_rangeb n).
Qed.

Lemma in_rangeb_spec n : GoInt.in_rangeb n = true <-> GoInt.in_range n.
Proof.
  unfold GoInt.in_rangeb, GoInt.in_range.
  rewrite andb_true_iff, !Z.leb_le. tauto.
Qed.

(** C10. A call of [checkLGTMCount] for merge request [m] that returns
    without error rewrites the entry whose key is the decimal string of
    [m] and nothing else.  The new bytes follow from what the old ones
    write, as an optional sign and digits: the decimal string of [n + 1]
    when they write an [n] with [min_int <= n < max_int]; the decimal
    string of [min_int] when they write [max_int], the increment wrapping
    around; and ["1"] when there is no entry, or its bytes write no
    integer or one outside [int].  Every other merge request's entry,
    every other key and every other bucket are as they were. *)
Theorem checkLGTMCount_frame flags env comment w b w' :
  checkLGTMCount flags env comment w = (Returns (b, None), w') ->
  let m := Iid (MergeRequest comment) in
  (forall s n,
     stored w m = Some s -> written_int s = Some n ->
     GoInt.min_int <= n < GoInt.max_int ->
     stored w' m = Some (strconv.Itoa (n + 1)))
  /\ (forall s,
        stored w m = Some s -> written_int s = Some GoInt.max_int ->
        stored w' m = Some (strconv.Itoa GoInt.min_int))
  /\ (stored w m = None
      \/ (exists s, stored w m = Some s
          /\ (written_int s = None
              \/ exists n, written_int s = Some n /\ ~ GoInt.in_range n)) ->
      stored w' m = Some "1")
  /\ (forall m', m' <> m -> stored w' m' = stored w m')
  /\ (forall key, key <> strconv.Itoa m ->
        db w' !! bucketName ≫= (fun bk => bk !! key)
        = db w !! bucketName ≫= (fun bk => bk !! key))
  /\ (forall name, name <> bucketName -> db w' !! name = db w !! name).
Proof.
  intros H m.
  apply checkLGTMCount_returns_nil in H as (_ & _ & _ & Hdb & _).
  fold m in Hdb.
  pose proof (stored_incr_same _ _ _ Hdb) as Hs.
  split.
  { intros s n Hold Hn Hr. rewrite Hs, Hold, count_of_written, Hn.
    assert (Hb : GoInt.in_rangeb n = true).
    { apply in_rangeb_spec. unfold GoInt.in_range. lia. }
    rewrite Hb. now rewrite incr_below_max. }
  split.
  { intros s Hold Hn. rewrite Hs, Hold, count_of_written, Hn. reflexivity. }
  split.
  { intros Hold. rewrite Hs.
    destruct Hold as [-> | (s & -> & [Hn | (n & Hn & Hr)])].
    - reflexivity.
    - rewrite count_of_written, Hn. reflexivity.
    - rewrite count_of_written, Hn.
      destruct (GoInt.in_rangeb n) eqn:Hb; [|reflexivity].
      apply in_rangeb_spec in Hb. contradiction. }
  split; [intros m' Hne; eapply stored_incr_other; eauto|].
  split.
  - intros key Hne. rewrite Hdb. now apply db_incr_other_key.
  - intros name Hne. rewrite Hdb. now apply db_incr_other_bucket.
Qed.

(** C10, as stated, fails: the new value is not always one plus the
    previous value, even for a previous value that is an [int].  An entry
    that holds the largest [int], 9223372036854775807, is rewritten to
    -9223372036854775808. *)
Lemma checkLGTMCount_increment_wraps :
  ~ (forall flags env comment w b w' s n,
       checkLGTMCount flags env comment w = (Returns (b, None), w') ->
       stored w (Iid (MergeRequest comment)) = Some s ->
       written_int s = Some n -> GoInt.in_range n ->
       stored w' (Iid (MergeRequest comment)) = Some (strconv.Itoa (n + 1))).
Proof.
  intros H.
  assert (E : exists b w',
             checkLGTMCount Sample.flags Sample.env
               (Sample.approval "LGTM" "can_be_merged")
               (Sample.world_counting "9223372036854775807")
             = (Returns (b, None), w')
             /\ stored w' 42 = Some "-9223372036854775808").
  { eexists _, _. split; [vm_compute; reflexivity|]. vm_compute. reflexivity. }
  destruct E as (b & w' & E & Hnew).
  specialize (H _ _ _ _ _ _ "9223372036854775807" GoInt.max_int E).
  cbn [Sample.approval MergeRequest Iid] in H. rewrite Hnew in H.
  specialize (H ltac:(vm_compute; reflexivity) ltac:(vm_compute; reflexivity)
                ltac:(unfold GoInt.in_range, GoInt.min_int, GoInt.max_int; lia)).
  vm_compute in H. discriminate H.
Qed.

Lemma checkLGTMCount_frame_witness :
  exists b w',
    checkLGTMCount Sample.flags Sample.env (Sample.approval "LGTM" "can_be_merged")
      (Sample.world_counting "9") = (Returns (b, None), w')
    /\ stored w' 42 = Some "10"
    /\ stored w' 43 = stored (Sample.world_counting "9") 43.
Proof.
  eexists _, _. split; [vm_compute; reflexivity|].
  match goal with
  | |- stored ?w' _ = _ /\ _ =>
      pose proof (checkLGTMCount_frame Sample.flags Sample.env
                    (Sample.approval "LGTM" "can_be_merged")
                    (Sample.world_counting "9") _ w'
                    ltac:(vm_compute; reflexivity)) as (H1 & _ & _ & H2 & _)
  end.
  split.
  - apply (H1 "9" 9).
    + vm_compute. reflexivity.
    + reflexivity.
    + unfold GoInt.min_int, GoInt.max_int. lia.
  - apply H2. intros [=].
Defined.

(** ** Storage failures in [checkLGTMCount] *)

Section StorageFailures.

Variable flags : Flags.
Variable env : Env.
Variable comment : Comment.

Let m := Iid (MergeRequest comment).
Let t := validLGTMCount flags.

(** Every path on which the call ends (returns or panics) has released
    the mutex, and the call never exits the process. *)
Lemma checkLGTMCount_unlocks w o w' :
  mutex w = false ->
  checkLGTMCount flags env comment w = (o, w') ->
  o <> Exits /\ (o <> Blocks -> mutex w' = false).
Proof.
  intros Hm H. unfold_counter. rewrite Hm in H. simpl_world.
  destruct (db_rwlock w); [injection H as <- <-; split; congruence|].
  destruct (fail_Begin (faults env));
    [injection H as <- <-; split; [congruence|reflexivity]|].
  cbv beta iota in H.
  destruct (fail_CreateBucket (faults env));
    [injection H as <- <-; split; [congruence|reflexivity]|].
  destruct (default ∅ (db w !! bucketName) !! _) as [[|c s]|];
    cbn [from_option id String.length Nat.ltb Nat.leb] in *;
    [change (strconv.Atoi EmptyString) with (@inr Z _ ErrSyntax) in *
    |destruct (strconv.Atoi (String c s))
    |];
    cbv beta iota in H;
    (destruct (fail_Put (faults env));
     [injection H as <- <-; split; [congruence|reflexivity]|]);
    (destruct (validLGTMCount flags =? 0);
     [injection H as <- <-; split; [congruence|reflexivity]|]);
    (destruct (fail_Commit (faults env));
     injection H as <- <-; split; [congruence|reflexivity|congruence|reflexivity]).
Qed.

(** [db.Begin] fails: [(false, err)], nothing else changes. *)
Lemma checkLGTMCount_begin_fails w err :
  idle w -> fail_Begin (faults env) = Some err ->
  checkLGTMCount flags env comment w = (Returns (false, Some err), w).
Proof.
  intros [Hm Hl] Hf. unfold_counter. rewrite Hm. simpl_world. rewrite Hl, Hf.
  cbv beta iota. f_equal. destruct w; cbn in *; subst; reflexivity.
Qed.

(** [tx.Commit] fails: the threshold decision of the incremented count
    comes back with the error, the store keeps its committed state and
    the transaction is closed. *)
Lemma checkLGTMCount_commit_fails w err :
  idle w -> t <> 0 ->
  fail_Begin (faults env) = None -> fail_CreateBucket (faults env) = None ->
  fail_Put (faults env) = None -> fail_Commit (faults env) = Some err ->
  exists w',
    checkLGTMCount flags env comment w
    = (Returns (GoInt.rem (GoInt.incr (count_of (stored w m))) t =? 0, Some err), w')
    /\ db w' = db w /\ idle w'.
Proof.
  intros [Hm Hl] Ht Hb Hc Hp Hcm. unfold_counter. rewrite Hm. simpl_world.
  rewrite Hl, Hb. cbv beta iota. rewrite Hc, Hp, Hcm.
  fold m t. apply Z.eqb_neq in Ht. rewrite stored_bucket.
  destruct (default ∅ (db w !! bucketName) !! strconv.Itoa m) as [[|c s]|];
    cbn [from_option id String.length Nat.ltb Nat.leb count_of];
    [change (strconv.Atoi EmptyString) with (@inr Z _ ErrSyntax)
    |destruct (strconv.Atoi (String c s))
    |];
    cbv beta iota; rewrite Ht; cbv beta iota;
    (eexists; split; [reflexivity|]; unfold idle; simpl_world; auto).
Qed.

(** [CreateBucketIfNotExists] or [bucket.Put] fails: [(false, err)] comes
    back and the mutex is released, but the read-write transaction is
    neither committed nor rolled back: bolt's writer lock stays held. *)
Lemma checkLGTMCount_put_fails w err :
  idle w ->
  fail_Begin (faults env) = None ->
  (fail_CreateBucket (faults env) = Some err
   \/ fail_CreateBucket (faults env) = None /\ fail_Put (faults env) = Some err) ->
  exists w',
    checkLGTMCount flags env comment w = (Returns (false, Some err), w')
    /\ db w' = db w /\ mutex w' = false /\ db_rwlock w' = true.
Proof.
  intros [Hm Hl] Hb Hf. unfold_counter. rewrite Hm. simpl_world.
  rewrite Hl, Hb. cbv beta iota.
  destruct Hf as [Hc | [Hc Hp]]; rewrite Hc.
  - eexists; split; [reflexivity|]. simpl_world. auto.
  - rewrite Hp.
    destruct (default ∅ (db w !! bucketName) !! _) as [[|c s]|];
      cbn [from_option id String.length Nat.ltb Nat.leb];
      [change (strconv.Atoi EmptyString) with (@inr Z _ ErrSyntax)
      |destruct (strconv.Atoi (String c s))
      |];
      cbv beta iota;
      (eexists; split; [reflexivity|]; simpl_world; auto).
Qed.

(** With the writer lock held, [db.Begin(true)] never returns: the call
    hangs with the mutex taken. *)
Lemma checkLGTMCount_blocks w :
  mutex w = false -> db_rwlock w = true ->
  checkLGTMCount flags env comment w = (Blocks, set_mutex true w).
Proof.
  intros Hm Hl. unfold_counter. rewrite Hm. simpl_world. now rewrite Hl.
Qed.

End StorageFailures.

(** C5, at a failing input. [bucket.Put] fails during the first call: the
    call returns [(false, err)] with the mutex released, but the
    transaction is left open instead of aborted, so the next call for the
    same merge request hangs in [db.Begin(true)] holding the mutex. *)
Theorem checkLGTMCount_put_failure_leaves_tx_open :
  let c := Sample.approval "LGTM" "can_be_merged" in
  let r1 := checkLGTMCount Sample.flags Sample.env_put_fails c Sample.world in
  let r2 := checkLGTMCount Sample.flags Sample.env c (snd r1) in
  fst r1 = Returns (false, Some (Err "incompatible value"))
  /\ mutex (snd r1) = false
  /\ db_rwlock (snd r1) = true
  /\ fst r2 = Blocks
  /\ mutex (snd r2) = true.
Proof. vm_compute. repeat split. Qed.

(** ** The reviewer policy *)

Ltac unfold_policy :=
  unfold checkReviewers, getReviewers in *; unfold_monad.

Lemma is_reviewer_In rs username :
  is_reviewer rs username = true <-> In username rs.
Proof.
  induction rs as [|r rs IH]; cbn [is_reviewer In].
  - split; [discriminate|tauto].
  - destruct (String.eqb r username) eqn:E.
    + apply String.eqb_eq in E. tauto.
    + apply String.eqb_neq in E. rewrite IH. split; [tauto|].
      intros [H|H]; [congruence|exact H].
Qed.

Section ReviewerPolicy.

Variable yaml_Unmarshal : string -> Conf -> Conf + error.
Variable env : Env.
Variable comment : Comment.

Lemma checkReviewers_no_file w :
  reviewers_yaml env = None ->
  checkReviewers yaml_Unmarshal env comment w = (Returns true, w).
Proof. intros H. unfold_policy. now rewrite H. Qed.

Lemma checkReviewers_bad_yaml w file err :
  reviewers_yaml env = Some file ->
  yaml_Unmarshal file (reviewers w) = inr err ->
  fst (checkReviewers yaml_Unmarshal env comment w) = Exits.
Proof. intros H1 H2. unfold_policy. rewrite H1. cbv beta iota. now rewrite H2. Qed.

Lemma checkReviewers_loaded w file c :
  reviewers_yaml env = Some file ->
  yaml_Unmarshal file (reviewers w) = inl c ->
  exists w',
    checkReviewers yaml_Unmarshal env comment w
    = (Returns (match Reviewers c with
                | [] => true
                | _ => is_reviewer (Reviewers c) (Username (User comment))
                end), w')
    /\ reviewers w' = c /\ db w' = db w /\ sent w' = sent w
    /\ glURL w' = glURL w /\ mutex w' = mutex w /\ db_rwlock w' = db_rwlock w.
Proof.
  intros H1 H2. unfold_policy. rewrite H1. cbv beta iota. rewrite H2.
  cbv beta iota. simpl_world.
  destruct (Reviewers c) as [|r rs] eqn:E; cbn [length Nat.eqb].
  - eexists; split; [reflexivity|]. simpl_world. auto 10.
  - destruct (is_reviewer (r :: rs) (Username (User comment)));
      cbv beta iota; eexists; (split; [reflexivity|]); simpl_world; auto 10.
Qed.

(** The policy touches neither the store, the locks, the URL nor the
    network. *)
Lemma checkReviewers_frame w o w' :
  checkReviewers yaml_Unmarshal env comment w = (o, w') ->
  db w' = db w /\ sent w' = sent w /\ glURL w' = glURL w
  /\ mutex w' = mutex w /\ db_rwlock w' = db_rwlock w.
Proof.
  destruct (reviewers_yaml env) as [file|] eqn:Hf.
  - destruct (yaml_Unmarshal file (reviewers w)) as [c|err] eqn:Hy.
    + destruct (checkReviewers_loaded w file c Hf Hy) as (w1 & -> & H).
      intros [= <- <-]. tauto.
    + unfold_policy. rewrite Hf. cbv beta iota. rewrite Hy. cbv beta iota.
      intros [= <- <-]. simpl_world. auto.
  - rewrite (checkReviewers_no_file w Hf). intros [= <- <-]. auto.
Qed.


End ReviewerPolicy.



(** An empty [reviewers.yaml] after a load of [alice] and [bob]: the
    file yields no list, and [carol] is still refused. *)
Example checkReviewers_stale_list :
  checkReviewers Sample.yaml_keeps Sample.env_empty_file
    (Sample.approval "LGTM" "can_be_merged") Sample.world_loaded
  = (Returns false,
     add_log LevelWarn "User carol is not allowed to do LGTM" Sample.world_loaded).
Proof. reflexivity. Qed.

(** ** The event classifier *)

(** [checkLGTMCount] touches neither the network, the URL nor the
    reviewers, whichever way it ends. *)
Lemma checkLGTMCount_no_network flags env comment w o w' :
  checkLGTMCount flags env comment w = (o, w') ->
  sent w' = sent w /\ glURL w' = glURL w /\ reviewers w' = reviewers w.
Proof.
  intros H. unfold_counter.
  destruct (mutex w); [injection H as <- <-; auto|]. simpl_world.
  destruct (db_rwlock w); [injection H as <- <-; auto|].
  destruct (fail_Begin (faults env)); [injection H as <- <-; auto|].
  cbv beta iota in H.
  destruct (fail_CreateBucket (faults env)); [injection H as <- <-; auto|].
  destruct (default ∅ (db w !! bucketName) !! _) as [[|c s]|];
    cbn [from_option id String.length Nat.ltb Nat.leb] in *;
    [change (strconv.Atoi EmptyString) with (@inr Z _ ErrSyntax) in *
    |destruct (strconv.Atoi (String c s))
    |];
    cbv beta iota in H;
    (destruct (fail_Put (faults env)); [injection H as <- <-; auto|]);
    (destruct (validLGTMCount flags =? 0); [injection H as <- <-; auto|]);
    (destruct (fail_Commit (faults env)); injection H as <- <-; auto).
Qed.

Lemma ToUpper_ascii up s :
  strings.all_bytes strings.is_ascii s = true ->
  strings.ToUpper up s = strings.map_bytes strings.upper_byte s.
Proof. intros H. unfold strings.ToUpper. now rewrite H. Qed.

Lemma upper_byte_not_lower c : strings.is_lower (strings.upper_byte c) = false.
Proof.
  destruct c as [[] [] [] [] [] [] [] []]; reflexivity.
Qed.

Section Classifier.

Variable flags : Flags.
Variable unicode_upper : string -> string.
Variable yaml_Unmarshal : string -> Conf -> Conf + error.
Variable json_Marshal : list (string * string) -> string + error.
Variable URL_String : URL -> string.
Variable url_Parse : string -> URL + error.

(** The program with the flags and library functions of this section. *)
Abbreviation is_lgtm_note' := (is_lgtm_note flags unicode_upper).
Abbreviation checkReviewers' := (checkReviewers yaml_Unmarshal).
Abbreviation checkLGTMCount' := (checkLGTMCount flags).
Abbreviation acceptMergeRequest' :=
  (acceptMergeRequest flags json_Marshal URL_String url_Parse).
Abbreviation checkLgtm_approved' :=
  (checkLgtm_approved flags json_Marshal URL_String url_Parse).
Abbreviation checkLgtm' :=
  (checkLgtm flags unicode_upper yaml_Unmarshal json_Marshal URL_String url_Parse).

(** The keyword check is a byte-for-byte comparison of the upper-cased
    note with the keyword as configured. *)
Lemma is_lgtm_note_iff note :
  is_lgtm_note' note = true
  <-> strings.ToUpper unicode_upper note = lgtmNote flags.
Proof. unfold is_lgtm_note. apply String.eqb_eq. Qed.

(** A keyword that holds a lower-case ASCII letter matches no ASCII
    note. *)
Lemma is_lgtm_note_lower_keyword note :
  strings.all_bytes strings.is_ascii note = true ->
  strings.all_bytes (fun c => negb (strings.is_lower c)) (lgtmNote flags) = false ->
  is_lgtm_note' note = false.
Proof.
  intros Ha Hk. destruct (is_lgtm_note' note) eqn:E; [|reflexivity].
  apply is_lgtm_note_iff in E. rewrite ToUpper_ascii in E by assumption.
  rewrite <- E in Hk. exfalso. clear -Hk.
  induction note as [|c s IH]; cbn in Hk; [discriminate|].
  rewrite upper_byte_not_lower in Hk. cbn in Hk. auto.
Qed.

Section Event.

Variable env : Env.
Variable comment : Comment.

Lemma checkLgtm_wrong_kind w :
  ObjectKind comment <> ObjectNote ->
  checkLgtm' env comment w = (Returns None, w).
Proof.
  intros H. apply String.eqb_neq in H. unfold checkLgtm. now rewrite H.
Qed.

(** A check after the kind check fails: the call returns [nil] in the
    state the reviewer policy left. *)
Lemma checkLgtm_rejects w ok w1 :
  ObjectKind comment = ObjectNote ->
  checkReviewers' env comment w = (Returns ok, w1) ->
  ok = false
  \/ NoteableType (ObjectAttributes comment) <> NoteableTypeMergeRequest
  \/ is_lgtm_note' (Note (ObjectAttributes comment)) = false ->
  checkLgtm' env comment w = (Returns None, w1).
Proof.
  intros Hk Hr H. apply String.eqb_eq in Hk.
  unfold checkLgtm. rewrite Hk. cbn [negb]. unfold bind at 1. rewrite Hr.
  destruct ok; cbn [negb]; [|reflexivity].
  destruct (String.eqb (NoteableType (ObjectAttributes comment))
              NoteableTypeMergeRequest) eqn:Ht; cbn [negb]; [|reflexivity].
  apply String.eqb_eq in Ht.
  destruct H as [H|[H|H]]; [discriminate|congruence|].
  unfold is_lgtm_note in *. now rewrite H.
Qed.

(** All four checks pass: the approval is processed. *)
Lemma checkLgtm_passes w w1 :
  ObjectKind comment = ObjectNote ->
  checkReviewers' env comment w = (Returns true, w1) ->
  NoteableType (ObjectAttributes comment) = NoteableTypeMergeRequest ->
  is_lgtm_note' (Note (ObjectAttributes comment)) = true ->
  checkLgtm' env comment w = checkLgtm_approved' env comment w1.
Proof.
  intros Hk Hr Ht Hn. apply String.eqb_eq in Hk, Ht.
  unfold checkLgtm. rewrite Hk. cbn [negb]. unfold bind at 1. rewrite Hr.
  cbn [negb]. rewrite Ht. cbn [negb]. unfold is_lgtm_note in *. now rewrite Hn.
Qed.

(** The reviewer policy does not return: neither does [checkLgtm], and
    nothing is stored or sent. *)
Lemma checkLgtm_policy_stops w o w1 :
  ObjectKind comment = ObjectNote ->
  checkReviewers' env comment w = (o, w1) ->
  (forall ok, o <> Returns ok) ->
  snd (checkLgtm' env comment w) = w1.
Proof.
  intros Hk Hr Ho. apply String.eqb_eq in Hk.
  unfold checkLgtm. rewrite Hk. cbn [negb]. unfold bind at 1. rewrite Hr.
  destruct o; [now destruct (Ho a)|reflexivity..].
Qed.

(** C9. [checkLgtm] makes four checks in this order: the event kind is
    ["note"], the commenter passes the reviewer policy, the noteable
    type is ["MergeRequest"], the note matches the keyword.  The first
    check that fails makes it return [nil] at once: a wrong kind leaves
    the whole state as it was (the reviewers file is not even read), a
    later failure leaves the state the reviewer policy left (store, URL
    and network untouched).  Only an event that passes all
    four is counted. *)
Theorem checkLgtm_checks w :
  (ObjectKind comment <> ObjectNote ->
   checkLgtm' env comment w = (Returns None, w))
  /\ (forall w1,
        ObjectKind comment = ObjectNote ->
        checkReviewers' env comment w = (Returns false, w1) ->
        checkLgtm' env comment w = (Returns None, w1)
        /\ db w1 = db w /\ sent w1 = sent w /\ glURL w1 = glURL w)
  /\ (forall w1,
        ObjectKind comment = ObjectNote ->
        checkReviewers' env comment w = (Returns true, w1) ->
        NoteableType (ObjectAttributes comment) <> NoteableTypeMergeRequest ->
        checkLgtm' env comment w = (Returns None, w1)
        /\ db w1 = db w /\ sent w1 = sent w /\ glURL w1 = glURL w)
  /\ (forall w1,
        ObjectKind comment = ObjectNote ->
        checkReviewers' env comment w = (Returns true, w1) ->
        NoteableType (ObjectAttributes comment) = NoteableTypeMergeRequest ->
        is_lgtm_note' (Note (ObjectAttributes comment)) = false ->
        checkLgtm' env comment w = (Returns None, w1)
        /\ db w1 = db w /\ sent w1 = sent w /\ glURL w1 = glURL w)
  /\ (forall w1,
        ObjectKind comment = ObjectNote ->
        checkReviewers' env comment w = (Returns true, w1) ->
        NoteableType (ObjectAttributes comment) = NoteableTypeMergeRequest ->
        is_lgtm_note' (Note (ObjectAttributes comment)) = true ->
        checkLgtm' env comment w = checkLgtm_approved' env comment w1).
Proof.
  split; [apply checkLgtm_wrong_kind|].
  split.
  { intros w1 Hk Hr. split; [eapply checkLgtm_rejects; eauto|].
    apply checkReviewers_frame in Hr. tauto. }
  split.
  { intros w1 Hk Hr Ht. split; [eapply checkLgtm_rejects; eauto|].
    apply checkReviewers_frame in Hr. tauto. }
  split.
  { intros w1 Hk Hr Ht Hn. split; [eapply checkLgtm_rejects; eauto|].
    apply checkReviewers_frame in Hr. tauto. }
  intros w1 Hk Hr Ht Hn. now apply checkLgtm_passes.
Qed.

Let m := Iid (MergeRequest comment).

(** After the four checks the approval is counted first; with a merge
    status other than ["can_be_merged"] nothing is sent and the URL is
    left alone, but the store is the one [checkLGTMCount] leaves. *)
Lemma checkLgtm_approved_unmergeable w :
  MergeStatus (MergeRequest comment) <> StatusCanbeMerged ->
  sent (snd (checkLgtm_approved' env comment w)) = sent w
  /\ glURL (snd (checkLgtm_approved' env comment w)) = glURL w
  /\ db (snd (checkLgtm_approved' env comment w))
     = db (snd (checkLGTMCount' env comment (add_log LevelInfo "comment" w))).
Proof.
  intros Hs. apply String.eqb_neq in Hs.
  unfold checkLgtm_approved, log, bind, modify, ret. rewrite Hs.
  destruct (checkLGTMCount' env comment (add_log LevelInfo "comment" w))
    as [o w2] eqn:Hc.
  apply checkLGTMCount_no_network in Hc as (H1 & H2 & _). simpl_world.
  destruct o as [[b [e|]]| | |]; rewrite ?andb_false_r; simpl_world; auto.
Qed.

(** A request goes out only after [checkLGTMCount] returned
    [(true, nil)] for an event whose merge status is
    ["can_be_merged"]. *)
Lemma checkLgtm_approved_sends_only_if w :
  sent (snd (checkLgtm_approved' env comment w)) <> sent w ->
  fst (checkLGTMCount' env comment (add_log LevelInfo "comment" w))
  = Returns (true, None)
  /\ MergeStatus (MergeRequest comment) = StatusCanbeMerged.
Proof.
  unfold checkLgtm_approved, log, bind, modify, ret.
  destruct (checkLGTMCount' env comment (add_log LevelInfo "comment" w))
    as [o w2] eqn:Hc.
  apply checkLGTMCount_no_network in Hc as (H1 & H2 & _). simpl_world.
  destruct o as [[b [e|]]| | |]; simpl_world; try congruence.
  destruct b; cbn [andb]; [|simpl_world; congruence].
  destruct (String.eqb _ StatusCanbeMerged) eqn:E; [|simpl_world; congruence].
  apply String.eqb_eq in E. auto.
Qed.

(** C4, as the code has it. An event that passes the four checks but
    whose merge status is not ["can_be_merged"] sends no merge request
    and leaves the URL alone, yet its approval is counted: the store is
    the one [checkLGTMCount] leaves, with the entry of the merge request
    incremented when the storage works.  For every event, a merge
    request goes out only if the four checks pass, the threshold
    decision is true and the merge status is ["can_be_merged"]. *)
Theorem checkLgtm_unmergeable w :
  (forall w1,
     ObjectKind comment = ObjectNote ->
     checkReviewers' env comment w = (Returns true, w1) ->
     NoteableType (ObjectAttributes comment) = NoteableTypeMergeRequest ->
     is_lgtm_note' (Note (ObjectAttributes comment)) = true ->
     MergeStatus (MergeRequest comment) <> StatusCanbeMerged ->
     sent (snd (checkLgtm' env comment w)) = sent w
     /\ glURL (snd (checkLgtm' env comment w)) = glURL w
     /\ db (snd (checkLgtm' env comment w))
        = db (snd (checkLGTMCount' env comment (add_log LevelInfo "comment" w1)))
     /\ (idle w -> faults env = no_faults -> validLGTMCount flags <> 0 ->
         db (snd (checkLgtm' env comment w)) = db_incr (db w) m))
  /\ (sent (snd (checkLgtm' env comment w)) <> sent w ->
      exists w1,
        ObjectKind comment = ObjectNote
        /\ checkReviewers' env comment w = (Returns true, w1)
        /\ NoteableType (ObjectAttributes comment) = NoteableTypeMergeRequest
        /\ is_lgtm_note' (Note (ObjectAttributes comment)) = true
        /\ fst (checkLGTMCount' env comment (add_log LevelInfo "comment" w1))
           = Returns (true, None)
        /\ MergeStatus (MergeRequest comment) = StatusCanbeMerged).
Proof.
  split.
  - intros w1 Hk Hr Ht Hn Hs.
    rewrite (checkLgtm_passes w w1 Hk Hr Ht Hn).
    destruct (checkLgtm_approved_unmergeable w1 Hs) as (H1 & H2 & H3).
    destruct (checkReviewers_frame _ _ _ _ _ _ Hr) as (F1 & F2 & F3 & F4 & F5).
    rewrite H1, H2, H3. repeat split; try congruence.
    intros [Hm Hl] Hf Hz.
    destruct (checkLGTMCount_success flags env comment
                (add_log LevelInfo "comment" w1)) as (w2 & Hc & Hdb & _);
      [split; simpl_world; congruence|assumption|assumption|].
    rewrite Hc. cbn [snd]. rewrite Hdb. simpl_world. now rewrite F1.
  - intros Hsent.
    destruct (String.eqb (ObjectKind comment) ObjectNote) eqn:Hk.
    2:{ exfalso. apply Hsent. apply String.eqb_neq in Hk.
        now rewrite (checkLgtm_wrong_kind w Hk). }
    apply String.eqb_eq in Hk.
    destruct (checkReviewers' env comment w) as [o w1] eqn:Hr.
    pose proof (checkReviewers_frame _ _ _ _ _ _ Hr) as (F1 & F2 & _).
    destruct o as [[|]| | |].
    + destruct (String.eqb (NoteableType (ObjectAttributes comment))
                  NoteableTypeMergeRequest) eqn:Ht.
      2:{ apply String.eqb_neq in Ht. exfalso. apply Hsent.
          rewrite (checkLgtm_rejects w true w1 Hk Hr) by auto.
          cbn [snd]. congruence. }
      apply String.eqb_eq in Ht.
      destruct (is_lgtm_note' (Note (ObjectAttributes comment))) eqn:Hn.
      2:{ exfalso. apply Hsent.
          rewrite (checkLgtm_rejects w true w1 Hk Hr) by auto.
          cbn [snd]. congruence. }
      rewrite (checkLgtm_passes w w1 Hk Hr Ht Hn) in Hsent.
      rewrite <- F2 in Hsent.
      apply checkLgtm_approved_sends_only_if in Hsent as (S1 & S2).
      exists w1. auto 10.
    + exfalso. apply Hsent.
      rewrite (checkLgtm_rejects w false w1 Hk Hr) by auto.
      cbn [snd]. congruence.
    + exfalso. apply Hsent.
      rewrite (checkLgtm_policy_stops w _ w1 Hk Hr) by discriminate. congruence.
    + exfalso. apply Hsent.
      rewrite (checkLgtm_policy_stops w _ w1 Hk Hr) by discriminate. congruence.
    + exfalso. apply Hsent.
      rewrite (checkLgtm_policy_stops w _ w1 Hk Hr) by discriminate. congruence.
Qed.

End Event.

End Classifier.

(** C9 at sample events: a wrong kind is dropped before the reviewers file
    is looked at (here the file would end the process); a commenter outside
    the allow-list is dropped with the policy's warning as the only
    effect. *)
Lemma checkLgtm_checks_witness :
  checkLgtm Sample.flags (fun s => s) Sample.yaml_rejects Sample.marshal
    Sample.url_string Sample.url_parse Sample.env_with_file
    {| ObjectKind := "issue"; User := {| Username := "carol" |}; ProjectID := 7;
       ObjectAttributes := {| Note := "LGTM"; NoteableType := "MergeRequest" |};
       MergeRequest := {| MergeStatus := "can_be_merged"; Iid := 42;
                          MergeParams := {| ForceRemoveSourceBranch := "true" |} |} |}
    Sample.world
  = (Returns None, Sample.world)
  /\ db (snd (checkLgtm Sample.flags (fun s => s) Sample.yaml_alice_bob Sample.marshal
                Sample.url_string Sample.url_parse Sample.env_with_file
                (Sample.approval "LGTM" "can_be_merged") Sample.world))
     = db Sample.world.
Proof.
  split.
  - refine (proj1 (checkLgtm_checks Sample.flags (fun s => s) Sample.yaml_rejects
                     Sample.marshal Sample.url_string Sample.url_parse
                     Sample.env_with_file _ Sample.world) _).
    discriminate.
  - destruct (checkLgtm_checks Sample.flags (fun s => s) Sample.yaml_alice_bob
                Sample.marshal Sample.url_string Sample.url_parse
                Sample.env_with_file (Sample.approval "LGTM" "can_be_merged")
                Sample.world) as (_ & H2 & _).
    destruct (H2 _ eq_refl eq_refl) as (-> & Hdb & _). exact Hdb.
Defined.

(** C4, as stated, fails: an event that passes the four checks with merge
    status ["cannot_be_merged"] sends nothing, but the counter entry of its
    merge request goes from absent to ["1"]. *)
Lemma checkLgtm_counts_unmergeable_event :
  ~ (forall flags unicode_upper yaml_Unmarshal json_Marshal URL_String url_Parse
            env comment w w1,
        ObjectKind comment = ObjectNote ->
        checkReviewers yaml_Unmarshal env comment w = (Returns true, w1) ->
        NoteableType (ObjectAttributes comment) = NoteableTypeMergeRequest ->
        is_lgtm_note flags unicode_upper (Note (ObjectAttributes comment)) = true ->
        MergeStatus (MergeRequest comment) <> StatusCanbeMerged ->
        let w' := snd (checkLgtm flags unicode_upper yaml_Unmarshal json_Marshal
                         URL_String url_Parse env comment w) in
        sent w' = sent w
        /\ stored w' (Iid (MergeRequest comment))
           = stored w (Iid (MergeRequest comment))).
Proof.
  intros H.
  specialize (H Sample.flags (fun s => s) Sample.yaml_rejects Sample.marshal
                Sample.url_string Sample.url_parse Sample.env
                (Sample.approval "lgtm" "cannot_be_merged")
                Sample.world Sample.world
                eq_refl eq_refl eq_refl eq_refl ltac:(discriminate)).
  destruct H as [_ H]. vm_compute in H. discriminate H.
Qed.

Lemma checkLgtm_unmergeable_witness :
  let w' := snd (checkLgtm Sample.flags (fun s => s) Sample.yaml_rejects
                   Sample.marshal Sample.url_string Sample.url_parse Sample.env
                   (Sample.approval "lgtm" "cannot_be_merged") Sample.world) in
  sent w' = sent Sample.world
  /\ glURL w' = glURL Sample.world
  /\ db w' = db_incr (db Sample.world) 42.
Proof.
  destruct (checkLgtm_unmergeable Sample.flags (fun s => s) Sample.yaml_rejects
              Sample.marshal Sample.url_string Sample.url_parse Sample.env
              (Sample.approval "lgtm" "cannot_be_merged") Sample.world)
    as (H & _).
  destruct (H Sample.world eq_refl eq_refl eq_refl eq_refl ltac:(discriminate))
    as (H1 & H2 & _ & H4).
  cbv zeta. split; [exact H1|]. split; [exact H2|].
  apply H4; [split; reflexivity|reflexivity|discriminate].
Defined.

(** ** The approval keyword *)

Example keyword_default_lower up : is_lgtm_note Sample.flags up "lgtm" = true.
Proof. reflexivity. Qed.

Example keyword_default_upper up : is_lgtm_note Sample.flags up "LGTM" = true.
Proof. reflexivity. Qed.

Example keyword_default_mixed up : is_lgtm_note Sample.flags up "Lgtm" = true.
Proof. reflexivity. Qed.

Example keyword_default_please up :
  is_lgtm_note Sample.flags up "lgtm please" = false.
Proof. reflexivity. Qed.

(** C2, at a failing input. With the keyword configured as ["lgtm"] the
    notes ["lgtm"] and ["LGTM"] are both rejected, although each equals the
    keyword up to letter case; the event is dropped and nothing is
    counted. *)
Theorem is_lgtm_note_lowercase_keyword :
  forall unicode_upper yaml_Unmarshal json_Marshal URL_String url_Parse,
    is_lgtm_note Sample.flags_lower unicode_upper "lgtm" = false
    /\ is_lgtm_note Sample.flags_lower unicode_upper "LGTM" = false
    /\ checkLgtm Sample.flags_lower unicode_upper yaml_Unmarshal json_Marshal
         URL_String url_Parse Sample.env
         (Sample.approval "lgtm" "can_be_merged") Sample.world
       = (Returns None, Sample.world).
Proof. intros. repeat split. Qed.

(** The same event under the default keyword is counted. *)
Example default_keyword_counts :
  stored (snd (checkLgtm Sample.flags (fun s => s) Sample.yaml_rejects
                 Sample.marshal Sample.url_string Sample.url_parse Sample.env
                 (Sample.approval "lgtm" "can_be_merged") Sample.world)) 42
  = Some "1".
Proof. vm_compute. reflexivity. Qed.

(** ** The merge trigger *)

Ltac unfold_merge := unfold acceptMergeRequest in *; unfold_monad.

Section MergeTrigger.

Variable flags : Flags.
Variable json_Marshal : list (string * string) -> string + error.
Variable URL_String : URL -> string.
Variable url_Parse : string -> URL + error.
Variable env : Env.

(** One call: the path template is appended to whatever [glURL.Path]
    holds, and the request is a PUT to the rendering of that URL with the
    token header and the marshalled body. *)
Lemma acceptMergeRequest_request w projectID iid remove body u :
  json_Marshal [("should_remove_source_branch", remove)] = inl body ->
  url_Parse (URL_String (with_Path (glURL w)
                           (Path (glURL w) +:+ merge_path projectID iid)))
  = inl u ->
  let w' := snd (acceptMergeRequest flags json_Marshal URL_String url_Parse env
                   projectID iid remove w) in
  glURL w' = with_Path (glURL w) (Path (glURL w) +:+ merge_path projectID iid)
  /\ sent w' =
     (sent w ++
      [ {| req_method := "PUT";
           req_url := URL_String (glURL w');
           req_header := [("Conntent-Type", "application/json");
                          ("PRIVATE-TOKEN", privateToken flags)];
           req_body := body |} ])%list
  /\ db w' = db w.
Proof.
  intros Hj Hp. unfold_merge. rewrite Hj. cbv beta iota. simpl_world.
  rewrite Hp. cbv beta iota. simpl_world.
  destruct (http_Do env _) as [resp|err]; cbv beta iota.
  - destruct (StatusCode resp =? 200); [cbn; auto|].
    destruct (StatusCode resp =? 405); [cbn; auto|].
    destruct (StatusCode resp =? 406); cbn; auto.
  - cbn; auto.
Qed.

End MergeTrigger.

(** C3, at a failing input. The first merge call of the process goes to the
    base URL with the path appended once; the second call, for the same
    merge request, goes to a URL whose path holds the template twice,
    because the first call left its path in the global [glURL]. *)
Theorem acceptMergeRequest_second_call_url :
  forall URL_String : URL -> string,
    let accept :=
      acceptMergeRequest Sample.flags Sample.marshal URL_String Sample.url_parse
        Sample.env 7 42 "true" in
    let w1 := snd (accept Sample.world) in
    let w2 := snd (accept w1) in
    map req_url (sent w2) =
      [ URL_String (with_Path Sample.base_url
                      "/api/v4/projects/7/merge_requests/42/merge");
        URL_String (with_Path Sample.base_url
                      "/api/v4/projects/7/merge_requests/42/merge/api/v4/projects/7/merge_requests/42/merge") ]
    /\ Path (glURL w2)
       <> Path Sample.base_url +:+ merge_path 7 42.
Proof. intros. split; [reflexivity|]. vm_compute. discriminate. Qed.

(** ** The webhook endpoint *)

Lemma append_cons c (s x : string) : String c s +:+ x = String c (s +:+ x).
Proof. reflexivity. Qed.

Lemma append_inj_l (a x y : string) : a +:+ x = a +:+ y -> x = y.
Proof.
  induction a as [|c a IH]; [auto|]. rewrite !append_cons. intros [= H]. auto.
Qed.

Lemma plain_cons c s :
  plain (String c s) = true -> Ascii.eqb c "%" = false /\ plain s = true.
Proof.
  unfold plain. cbn [strings.all_bytes]. intros H.
  apply andb_prop in H as [H1 H2]. apply negb_true_iff in H1. auto.
Qed.

(** A format without a percent sign is written as it is, also in front
    of a format that has one. *)
Lemma doPrintf_plain_prefix a b :
  plain a = true -> fmt.doPrintf 0 (a +:+ b) = a +:+ fmt.doPrintf 0 b.
Proof.
  induction a as [|c a IH]; intros H; [reflexivity|].
  apply plain_cons in H as [Hc Ha]. rewrite !append_cons.
  cbn [fmt.doPrintf]. rewrite Hc. now rewrite IH.
Qed.

Lemma doPrintf_plain_skip n s :
  plain s = true -> fmt.doPrintf n s = fmt.drop n s.
Proof.
  revert n. induction s as [|c s IH]; intros n H.
  - now destruct n.
  - apply plain_cons in H as [Hc Hs]. destruct n as [|n]; cbn [fmt.doPrintf fmt.drop].
    + rewrite Hc. f_equal. exact (IH O Hs).
    + now apply IH.
Qed.

Lemma Fprintf_plain s : plain s = true -> fmt.Fprintf s = s.
Proof. intros H. exact (doPrintf_plain_skip O s H). Qed.

(** A percent sign in front of a single quote is read as a directive with
    the verb ['] and no operand. *)
Lemma directive_quote post :
  fmt.directive (String "'" post) = ("%!'(MISSING)", 1%nat).
Proof. reflexivity. Qed.

Lemma Fprintf_percent_quote pre post :
  plain pre = true -> plain post = true ->
  fmt.Fprintf (pre +:+ "%'" +:+ post) = pre +:+ "%!'(MISSING)" +:+ post.
Proof.
  intros Hpre Hpost. unfold fmt.Fprintf.
  rewrite doPrintf_plain_prefix by exact Hpre. f_equal.
  change ("%'" +:+ post) with (String "%" (String "'" post)).
  cbn [fmt.doPrintf Ascii.eqb Bool.eqb]. rewrite directive_quote.
  cbn [fmt.doPrintf]. now rewrite (doPrintf_plain_skip O post Hpost).
Qed.

Example Fprintf_samples :
  fmt.Fprintf "error occurs:invalid request body"
  = "error occurs:invalid request body"
  /\ fmt.Fprintf "hi%d" = "hi%!d(MISSING)"
  /\ fmt.Fprintf "100%" = "100%!(NOVERB)"
  /\ fmt.Fprintf "50%% off" = "50% off"
  /\ fmt.Fprintf "%*d" = "%!(BADWIDTH)%!d(MISSING)"
  /\ fmt.Fprintf "%.*d" = "%!(BADPREC)%!d(MISSING)"
  /\ fmt.Fprintf "%[1]d" = "%!d(BADINDEX)"
  /\ fmt.Fprintf "%.[]" = "%!](BADINDEX)"
  /\ fmt.Fprintf "%-08.3q|" = "%!q(MISSING)|".
Proof. repeat split. Qed.

Section HandlerFacts.

Variable json_Decode : string -> Comment + error.

Lemma LGTMHandler_body_malformed r :
  malformed json_Decode r ->
  exists err, LGTMHandler_body json_Decode r = (Some err, None).
Proof.
  unfold LGTMHandler_body. intros H.
  destruct (String.eqb (hook_ContentType r) "application/json") eqn:Hc;
    cbn [negb]; [|eauto].
  destruct (String.eqb (hook_Method r) "POST") eqn:Hm; cbn [negb]; [|eauto].
  apply String.eqb_eq in Hc, Hm.
  destruct H as [H|[H|[H|(body & err & Hb & Hd)]]]; try congruence.
  - rewrite H. eauto.
  - rewrite Hb, Hd. eauto.
Qed.

Lemma LGTMHandler_body_wellformed r :
  ~ malformed json_Decode r ->
  exists body comment,
    hook_Body r = Some body /\ json_Decode body = inl comment
    /\ LGTMHandler_body json_Decode r = (None, Some comment).
Proof.
  unfold LGTMHandler_body, malformed. intros H.
  destruct (String.eqb (hook_ContentType r) "application/json") eqn:Hc;
    cbn [negb]; [|apply String.eqb_neq in Hc; tauto].
  destruct (String.eqb (hook_Method r) "POST") eqn:Hm;
    cbn [negb]; [|apply String.eqb_neq in Hm; tauto].
  destruct (hook_Body r) as [body|]; [|tauto].
  destruct (json_Decode body) as [comment|err] eqn:Hd.
  - eauto.
  - exfalso. apply H. do 3 right. eauto.
Qed.

(** A body that does not decode, on a request that is otherwise in
    order: [errRet] is the decoder's error. *)
Lemma LGTMHandler_body_decode_error r body err :
  hook_ContentType r = "application/json" -> hook_Method r = "POST" ->
  hook_Body r = Some body -> json_Decode body = inr err ->
  LGTMHandler_body json_Decode r = (Some err, None).
Proof.
  intros Hc Hm Hb Hd. apply String.eqb_eq in Hc, Hm.
  unfold LGTMHandler_body. now rewrite Hc, Hm, Hb, Hd.
Qed.

(** C8. A request whose content type is not exactly ["application/json"],
    whose method is not POST, whose body is absent or does not decode is
    answered with status 400 and starts no [checkLgtm] goroutine; every
    other request is answered with status 200 and the body ["OK"], and
    [checkLgtm] is started on the decoded comment.  The body of the 400
    answer is what [fmt.Fprintf] writes when the error message is its
    format: the message itself when it holds no percent sign, as the two
    fixed errors do; but a decoding error that quotes a percent sign of
    the request body, as [invalid character '%' looking for beginning of
    value] does, comes out with [%!'(MISSING)] in the place of [%'], so
    the body is not the error message. *)
Theorem LGTMHandler_responses r :
  (malformed json_Decode r ->
   exists err,
     fst (LGTMHandler_body json_Decode r) = Some err
     /\ hook_status (LGTMHandler json_Decode r) = 400
     /\ hook_spawned (LGTMHandler json_Decode r) = None
     /\ hook_response (LGTMHandler json_Decode r)
        = fmt.Fprintf ("error occurs:" +:+ Error err)
     /\ (plain (Error err) = true ->
         hook_response (LGTMHandler json_Decode r)
         = "error occurs:" +:+ Error err))
  /\ (~ malformed json_Decode r ->
      hook_status (LGTMHandler json_Decode r) = 200
      /\ hook_response (LGTMHandler json_Decode r) = "OK"
      /\ exists body comment,
           hook_Body r = Some body /\ json_Decode body = inl comment
           /\ hook_spawned (LGTMHandler json_Decode r) = Some comment)
  /\ (forall body pre post,
        hook_ContentType r = "application/json" -> hook_Method r = "POST" ->
        hook_Body r = Some body ->
        json_Decode body = inr (Err (pre +:+ "%'" +:+ post)) ->
        plain pre = true -> plain post = true ->
        hook_status (LGTMHandler json_Decode r) = 400
        /\ hook_response (LGTMHandler json_Decode r)
           = "error occurs:" +:+ pre +:+ "%!'(MISSING)" +:+ post
        /\ hook_response (LGTMHandler json_Decode r)
           <> "error occurs:" +:+ pre +:+ "%'" +:+ post).
Proof.
  split; [|split].
  - intros H. destruct (LGTMHandler_body_malformed r H) as (err & E).
    exists err. unfold LGTMHandler. rewrite E. cbn [fst hook_status hook_response
      hook_spawned]. repeat split; try reflexivity.
    intros Hp. unfold fmt.Fprintf.
    rewrite doPrintf_plain_prefix by reflexivity.
    now rewrite (doPrintf_plain_skip O _ Hp).
  - intros H.
    destruct (LGTMHandler_body_wellformed r H) as (body & comment & Hb & Hd & E).
    unfold LGTMHandler. rewrite E. cbn. eauto 10.
  - intros body pre post Hc Hm Hb Hd Hpre Hpost.
    unfold LGTMHandler.
    rewrite (LGTMHandler_body_decode_error r body _ Hc Hm Hb Hd).
    cbn [hook_status hook_response Error].
    assert (E : fmt.Fprintf ("error occurs:" +:+ pre +:+ "%'" +:+ post)
                = "error occurs:" +:+ pre +:+ "%!'(MISSING)" +:+ post).
    { unfold fmt.Fprintf. rewrite doPrintf_plain_prefix by reflexivity.
      f_equal. now apply Fprintf_percent_quote. }
    split; [reflexivity|]. split; [exact E|].
    rewrite E. intros Heq.
    apply append_inj_l, append_inj_l in Heq. discriminate Heq.
Qed.

(** Which error each violation reports, and the body it gets. *)
Lemma LGTMHandler_content_type r :
  hook_ContentType r <> "application/json" ->
  LGTMHandler json_Decode r
  = {| hook_status := 400;
       hook_response := "error occurs:invalid content type";
       hook_spawned := None |}.
Proof.
  intros H. apply String.eqb_neq in H.
  unfold LGTMHandler, LGTMHandler_body. now rewrite H.
Qed.

Lemma LGTMHandler_method r :
  hook_ContentType r = "application/json" -> hook_Method r <> "POST" ->
  LGTMHandler json_Decode r
  = {| hook_status := 400;
       hook_response := "error occurs:invalid request body";
       hook_spawned := None |}.
Proof.
  intros Hc H. apply String.eqb_eq in Hc. apply String.eqb_neq in H.
  unfold LGTMHandler, LGTMHandler_body. now rewrite Hc, H.
Qed.

End HandlerFacts.

Lemma LGTMHandler_responses_witness :
  hook_status
    (LGTMHandler
       (fun _ => inr (Err "invalid character '%' looking for beginning of value"))
       {| hook_Method := "POST"; hook_ContentType := "application/json";
          hook_Body := Some "%" |}) = 400
  /\ hook_response
       (LGTMHandler
          (fun _ => inr (Err "invalid character '%' looking for beginning of value"))
          {| hook_Method := "POST"; hook_ContentType := "application/json";
             hook_Body := Some "%" |})
     = "error occurs:invalid character '%!'(MISSING) looking for beginning of value"
  /\ hook_response
       (LGTMHandler
          (fun _ => inr (Err "invalid character '%' looking for beginning of value"))
          {| hook_Method := "POST"; hook_ContentType := "application/json";
             hook_Body := Some "%" |})
     <> "error occurs:invalid character '%' looking for beginning of value".
Proof.
  exact (proj2 (proj2
           (LGTMHandler_responses
              (fun _ => inr (Err "invalid character '%' looking for beginning of value"))
              {| hook_Method := "POST"; hook_ContentType := "application/json";
                 hook_Body := Some "%" |}))
           "%" "invalid character '" " looking for beginning of value"
           eq_refl eq_refl eq_refl eq_refl eq_refl eq_refl).
Defined.

(** ** Concurrent calls *)

Lemma count_if_app p l1 l2 :
  count_if p (l1 ++ l2)%list = (count_if p l1 + count_if p l2)%nat.
Proof. induction l1 as [|t l1 IH]; cbn [count_if app]; lia. Qed.

Lemma count_if_zero p l :
  count_if p l = 0%nat -> Forall (fun t => p t = false) l.
Proof.
  induction l as [|t l IH]; cbn [count_if]; intros H; constructor.
  - destruct (p t); [lia|reflexivity].
  - apply IH. lia.
Qed.

Lemma count_if_split p l :
  (0 < count_if p l)%nat ->
  exists l1 t l2, l = (l1 ++ t :: l2)%list /\ p t = true.
Proof.
  induction l as [|t l IH]; cbn [count_if]; intros H; [lia|].
  destruct (p t) eqn:E.
  - exists [], t, l. auto.
  - destruct IH as (l1 & t' & l2 & -> & Ht); [lia|].
    exists (t :: l1), t', l2. auto.
Qed.

Lemma count_if_and_le p q l :
  (count_if (fun t => p t && q t) l <= count_if p l)%nat.
Proof.
  induction l as [|t l IH]; cbn [count_if]; [lia|].
  destruct (p t), (q t); cbn; lia.
Qed.

Lemma outside_cs_local w l :
  count_if in_cs l = 0%nat ->
  Forall (fun t => in_cs t = true -> local_ok w t) l.
Proof.
  intros H. apply count_if_zero in H.
  eapply Forall_impl; [exact H|]. cbn. intros t Ht Hc. congruence.
Qed.

Lemma stored_same_db w w' m : db w' = db w -> stored w' m = stored w m.
Proof. unfold stored. now intros ->. Qed.

Section ConcurrentFacts.

Variable flags : Flags.
Variable comments : list Comment.
Variable w0 : World.

Hypothesis threshold_nonzero : validLGTMCount flags <> 0.
Hypothesis start_idle : idle w0.
Hypothesis counts_fit :
  forall m,
    count_of (stored w0 m) + Z.of_nat (calls_for m comments) <= GoInt.max_int.

Lemma Inv_start : Inv w0 comments w0 (spawn comments).
Proof.
  destruct start_idle as [Hm Hl].
  assert (Hcs : forall cs, count_if in_cs (spawn cs) = 0%nat).
  { induction cs as [|c cs IH]; cbn; auto. }
  assert (Hcm : forall m cs, committed_for m (spawn cs) = 0%nat).
  { unfold committed_for. induction cs as [|c cs IH]; cbn [spawn map count_if]; auto.
    fold (spawn cs). rewrite IH. cbn [committed th_pc]. now rewrite andb_false_r. }
  constructor.
  - intros m. rewrite Hcm. lia.
  - rewrite Hm. apply Hcs.
  - auto.
  - apply outside_cs_local, Hcs.
  - reflexivity.
Qed.

(** A thread inside the critical section is the only one there, and the
    mutex is held. *)
Lemma Inv_in_cs w l1 t l2 :
  Inv w0 comments w (l1 ++ t :: l2)%list -> in_cs t = true ->
  mutex w = true /\ count_if in_cs l1 = 0%nat /\ count_if in_cs l2 = 0%nat.
Proof.
  intros I Ht. pose proof (inv_cs _ _ _ _ I) as H.
  rewrite count_if_app in H. cbn [count_if] in H. rewrite Ht in H.
  destruct (mutex w); [lia|lia].
Qed.

Lemma Inv_local_at w l1 t l2 :
  Inv w0 comments w (l1 ++ t :: l2)%list -> in_cs t = true -> local_ok w t.
Proof.
  intros I Ht. pose proof (inv_local _ _ _ _ I) as H.
  apply Forall_app in H as [_ H]. inversion H; subst. auto.
Qed.

(** Replacing a thread by its successor: bookkeeping of the counts. *)
Lemma committed_for_step m l1 c p' l2 :
  committed_for m (l1 ++ {| th_comment := c; th_pc := p' |} :: l2)%list
  = (committed_for m l1
     + (if (Iid (MergeRequest c) =? m)%Z
           && committed {| th_comment := c; th_pc := p' |} then 1 else 0)
     + committed_for m l2)%nat.
Proof.
  unfold committed_for. rewrite count_if_app. cbn [count_if].
  unfold for_mr. cbn [th_comment]. lia.
Qed.

Lemma total_step m l1 c p p' l2 :
  count_if (for_mr m) (l1 ++ {| th_comment := c; th_pc := p' |} :: l2)%list
  = count_if (for_mr m) (l1 ++ {| th_comment := c; th_pc := p |} :: l2)%list.
Proof. rewrite !count_if_app. cbn [count_if]. reflexivity. Qed.

Lemma Inv_step w l1 c p l2 p' w' :
  Inv w0 comments w (l1 ++ {| th_comment := c; th_pc := p |} :: l2)%list ->
  thread_step flags c p w = Some (p', w') ->
  Inv w0 comments w' (l1 ++ {| th_comment := c; th_pc := p' |} :: l2)%list.
Proof.
  intros I Hs.
  assert (Htot : forall m,
             count_if (for_mr m) (l1 ++ {| th_comment := c; th_pc := p' |} :: l2)%list
             = calls_for m comments).
  { intros m. rewrite <- (inv_total _ _ _ _ I m). apply total_step. }
  pose proof (inv_counts _ _ _ _ I) as Hcnt.
  pose proof (inv_cs _ _ _ _ I) as Hcs.
  pose proof (inv_free _ _ _ _ I) as Hfree.
  pose proof (Inv_in_cs _ _ _ _ I) as Hin.
  pose proof (Inv_local_at _ _ _ _ I) as Hloc.
  pose proof (inv_total _ _ _ _ I) as Htot0.
  rewrite count_if_app in Hcs. cbn [count_if] in Hcs.
  destruct p; cbn [thread_step] in Hs.
  - (* mutex.Lock() *)
    destruct (mutex w) eqn:Hm; [discriminate|]. injection Hs as <- <-.
    cbn [in_cs th_pc] in Hcs.
    constructor; simpl_world.
    + intros m. rewrite (stored_same_db w) by reflexivity. rewrite Hcnt.
      rewrite !committed_for_step. cbn [committed th_pc].
      now rewrite !andb_false_r.
    + rewrite count_if_app. cbn [count_if in_cs th_pc]. lia.
    + discriminate.
    + apply Forall_app. split; [apply outside_cs_local; lia|].
      constructor; [|apply outside_cs_local; lia].
      intros _. cbn. simpl_world. auto.
    + exact Htot.
  - (* db.Begin(true) *)
    destruct (Hin eq_refl) as (Hm & H1 & H2).
    destruct (db_rwlock w) eqn:Hl; [discriminate|]. injection Hs as <- <-.
    constructor; simpl_world.
    + intros m. rewrite (stored_same_db w) by reflexivity. rewrite Hcnt.
      rewrite !committed_for_step. cbn [committed th_pc].
      now rewrite !andb_false_r.
    + rewrite count_if_app. cbn [count_if in_cs th_pc]. rewrite Hm. lia.
    + congruence.
    + apply Forall_app. split; [apply outside_cs_local; lia|].
      constructor; [|apply outside_cs_local; lia].
      intros _. cbn. simpl_world. auto.
    + exact Htot.
  - (* tx.CreateBucketIfNotExists *)
    destruct (Hin eq_refl) as (Hm & H1 & H2).
    destruct (Hloc eq_refl) as (Hl & Htx). subst tx. injection Hs as <- <-.
    constructor; simpl_world.
    + intros m. rewrite Hcnt.
      rewrite !committed_for_step. cbn [committed th_pc].
      now rewrite !andb_false_r.
    + rewrite count_if_app. cbn [count_if in_cs th_pc]. rewrite Hm. lia.
    + congruence.
    + apply Forall_app. split; [apply outside_cs_local; lia|].
      constructor; [|apply outside_cs_local; lia].
      intros _. cbn. auto.
    + exact Htot.
  - (* bucket.Get, strconv.Atoi, count++ *)
    destruct (Hin eq_refl) as (Hm & H1 & H2).
    destruct (Hloc eq_refl) as (Hl & Htx & Hbk). cbn [th_comment] in *.
    subst tx bucket.
    assert (exists w1,
               Some (p', w') =
               Some (AtPut (db w) (default ∅ (db w !! bucketName))
                       (GoInt.incr (count_of (stored w (Iid (MergeRequest c))))), w1)
               /\ db w1 = db w /\ mutex w1 = mutex w
               /\ db_rwlock w1 = db_rwlock w) as (w1 & E & Hd1 & Hm1 & Hl1).
    { rewrite <- Hs. rewrite stored_bucket.
      destruct (default ∅ (db w !! bucketName) !! _) as [[|ch s]|];
        cbn [from_option id String.length Nat.ltb Nat.leb count_of];
        [change (strconv.Atoi EmptyString) with (@inr Z _ ErrSyntax)
        |destruct (strconv.Atoi (String ch s))
        |]; eexists; (split; [reflexivity|]); simpl_world; auto. }
    injection E as -> ->.
    constructor.
    + intros m. rewrite (stored_same_db _ _ _ Hd1). rewrite Hcnt.
      rewrite !committed_for_step. cbn [committed th_pc].
      now rewrite !andb_false_r.
    + rewrite count_if_app. cbn [count_if in_cs th_pc]. rewrite Hm1, Hm. lia.
    + congruence.
    + apply Forall_app. split; [apply outside_cs_local; lia|].
      constructor; [|apply outside_cs_local; lia].
      intros _. cbn. rewrite Hl1, Hd1, (stored_same_db _ _ _ Hd1). auto.
    + exact Htot.
  - (* bucket.Put, checkStatus *)
    destruct (Hin eq_refl) as (Hm & H1 & H2).
    destruct (Hloc eq_refl) as (Hl & Htx & Hbk & Hcount). cbn [th_comment] in *.
    subst tx bucket count.
    destruct (validLGTMCount flags =? 0); [discriminate|]. injection Hs as <- <-.
    constructor.
    + intros m. rewrite Hcnt.
      rewrite !committed_for_step. cbn [committed th_pc].
      now rewrite !andb_false_r.
    + rewrite count_if_app. cbn [count_if in_cs th_pc]. rewrite Hm. lia.
    + congruence.
    + apply Forall_app. split; [apply outside_cs_local; lia|].
      constructor; [|apply outside_cs_local; lia].
      intros _. cbn. split; [assumption|]. unfold db_incr.
      now rewrite stored_bucket.
    + exact Htot.
  - (* tx.Commit() *)
    destruct (Hin eq_refl) as (Hm & H1 & H2).
    destruct (Hloc eq_refl) as (Hl & Htx). cbn [th_comment] in *. subst tx.
    injection Hs as <- <-.
    set (mt := Iid (MergeRequest c)) in *.
    assert (Hdb : db (add_log LevelInfo "MR count"
                        (set_db_rwlock false (set_db (db_incr (db w) mt) w)))
                  = db_incr (db w) mt) by reflexivity.
    constructor.
    + intros m. specialize (Hcnt m). specialize (Htot0 m).
      rewrite committed_for_step in *. rewrite count_if_app in Htot0.
      cbn [count_if committed th_pc] in *. rewrite andb_false_r in Hcnt.
      unfold for_mr at 2 in Htot0. cbn [th_comment] in Htot0. fold mt in Htot0 |- *.
      rewrite andb_true_r.
      destruct (Z.eqb_spec mt m) as [<-|Hne].
      * rewrite (stored_incr_same _ _ _ Hdb).
        rewrite count_of_Itoa by apply wrap_range.
        pose proof (count_of_range (stored w mt)) as [Hlo _].
        pose proof (count_if_and_le (for_mr mt) committed l1).
        pose proof (count_if_and_le (for_mr mt) committed l2).
        pose proof (counts_fit mt). unfold committed_for in *.
        rewrite incr_below_max by lia. lia.
      * rewrite (stored_incr_other _ _ _ _ Hdb) by congruence. lia.
    + rewrite count_if_app. cbn [count_if in_cs th_pc]. simpl_world.
      rewrite Hm. lia.
    + simpl_world. congruence.
    + apply Forall_app. split; [apply outside_cs_local; lia|].
      constructor; [|apply outside_cs_local; lia].
      intros _. reflexivity.
    + exact Htot.
  - (* the deferred mutex.Unlock() *)
    destruct (Hin eq_refl) as (Hm & H1 & H2).
    pose proof (Hloc eq_refl) as Hl. cbn in Hl.
    injection Hs as <- <-.
    constructor; simpl_world.
    + intros m. rewrite (stored_same_db w) by reflexivity. rewrite Hcnt.
      rewrite !committed_for_step. reflexivity.
    + rewrite count_if_app. cbn [count_if in_cs th_pc]. lia.
    + auto.
    + apply Forall_app. split; [apply outside_cs_local; lia|].
      constructor; [|apply outside_cs_local; lia].
      discriminate.
    + exact Htot.
  - discriminate.
Qed.

Lemma Inv_reachable w ts :
  rtc (sys_step flags) (w0, spawn comments) (w, ts) -> Inv w0 comments w ts.
Proof.
  intros H.
  refine (rtc_ind_r (fun cfg => Inv w0 comments (fst cfg) (snd cfg))
            (w0, spawn comments) _ _ (w, ts) H).
  - apply Inv_start.
  - intros [w1 ts1] [w2 ts2] _ Hstep IH. cbn [fst snd] in *.
    inversion Hstep as [l1 c p l2 w1' p' w' Hs]; subst.
    eapply Inv_step; [exact IH|exact Hs].
Qed.

Lemma unfinished_split l :
  forallb finished l = false ->
  exists l1 t l2, l = (l1 ++ t :: l2)%list /\ finished t = false.
Proof.
  induction l as [|t l IH]; cbn [forallb]; intros H; [discriminate|].
  destruct (finished t) eqn:E.
  - destruct IH as (l1 & t' & l2 & -> & Ht); [exact H|].
    exists (t :: l1), t', l2. auto.
  - exists [], t, l. auto.
Qed.

(** Unless every thread has returned, some thread can move. *)
Lemma Inv_progress w ts :
  Inv w0 comments w ts -> forallb finished ts = false ->
  exists cfg, sys_step flags (w, ts) cfg.
Proof.
  intros I Hnf. destruct (mutex w) eqn:Hm.
  - pose proof (inv_cs _ _ _ _ I) as Hcs. rewrite Hm in Hcs.
    destruct (count_if_split in_cs ts) as (l1 & [c p] & l2 & -> & Hin); [lia|].
    pose proof (Inv_local_at _ _ _ _ I Hin) as Hloc.
    assert (exists r, thread_step flags c p w = Some r) as ([p' w'] & Hs).
    { destruct p; cbn [in_cs th_pc] in Hin; try discriminate;
        unfold local_ok in Hloc; cbn [th_pc] in Hloc; cbn [thread_step].
      - rewrite Hloc. eauto.
      - eauto.
      - destruct (Nat.ltb _ _); [destruct (strconv.Atoi _)|]; eauto.
      - apply Z.eqb_neq in threshold_nonzero. rewrite threshold_nonzero. eauto.
      - eauto.
      - eauto. }
    eexists. econstructor. exact Hs.
  - destruct (unfinished_split ts Hnf) as (l1 & [c p] & l2 & -> & Hf).
    pose proof (inv_cs _ _ _ _ I) as Hcs. rewrite Hm in Hcs.
    rewrite count_if_app in Hcs. cbn [count_if] in Hcs.
    destruct p; cbn in Hf, Hcs; try discriminate; try lia.
    eexists. econstructor. cbn [thread_step]. rewrite Hm. reflexivity.
Qed.

Lemma finished_committed p l :
  forallb finished l = true ->
  count_if (fun t => p t && committed t) l = count_if p l.
Proof.
  induction l as [|t l IH]; cbn [count_if forallb]; [reflexivity|].
  intros H. apply andb_prop in H as [Hq Hl]. rewrite IH by assumption.
  destruct t as [c pc0]. destruct pc0; try discriminate.
  cbn [committed th_pc]. now rewrite andb_true_r.
Qed.

End ConcurrentFacts.

(** Every statement a thread executes brings the system closer to its
    end: no interleaving runs forever. *)
Lemma sys_step_decreases flags w ts w' ts' :
  sys_step flags (w, ts) (w', ts') -> (steps_left ts' < steps_left ts)%nat.
Proof.
  inversion 1 as [l1 c p l2 w1 p' w1' Hs]; subst.
  assert (Hr : (pc_rank p' < pc_rank p)%nat).
  { destruct p; cbn [thread_step] in Hs.
    - destruct (mutex w); [discriminate|]. injection Hs as <- _. cbn. lia.
    - destruct (db_rwlock w); [discriminate|]. injection Hs as <- _. cbn. lia.
    - injection Hs as <- _. cbn. lia.
    - destruct (Nat.ltb _ _); [destruct (strconv.Atoi _)|];
        injection Hs as <- _; cbn; lia.
    - destruct (validLGTMCount flags =? 0); [discriminate|].
      injection Hs as <- _. cbn. lia.
    - injection Hs as <- _. cbn. lia.
    - injection Hs as <- _. cbn. lia.
    - discriminate. }
  clear -Hr. induction l1 as [|t l1 IH]; cbn [app steps_left th_pc]; lia.
Qed.

(** A thread running alone is one interleaving. *)
Lemma run_thread_rtc flags fuel c p w l1 l2 :
  rtc (sys_step flags)
    (w, (l1 ++ {| th_comment := c; th_pc := p |} :: l2)%list)
    (snd (run_thread flags fuel c p w),
     (l1 ++ {| th_comment := c; th_pc := fst (run_thread flags fuel c p w) |} :: l2)%list).
Proof.
  revert p w. induction fuel as [|fuel IH]; intros p w; cbn [run_thread].
  - apply rtc_refl.
  - destruct (thread_step flags c p w) as [[p' w']|] eqn:Hs.
    + eapply rtc_l; [|apply IH]. now constructor.
    + apply rtc_refl.
Qed.

(** A thread running alone from [AtLock] does what the sequential
    [checkLGTMCount] does when the storage works. *)
Lemma run_thread_checkLGTMCount flags env c w :
  idle w -> faults env = no_faults -> validLGTMCount flags <> 0 ->
  exists b w',
    checkLGTMCount flags env c w = (Returns (b, None), w')
    /\ run_thread flags 7 c AtLock w = (Finished b, w').
Proof.
  intros [Hm Hl] Hf Ht. apply Z.eqb_neq in Ht.
  unfold_counter. rewrite Hm. simpl_world.
  rewrite Hl, Hf. cbn [no_faults fail_Begin fail_CreateBucket fail_Put fail_Commit].
  do 3 (cbn [run_thread thread_step]; simpl_world; rewrite ?Hm, ?Hl).
  cbn [run_thread thread_step].
  destruct (default ∅ (db w !! bucketName) !! _) as [[|ch s]|];
    cbn [from_option id String.length Nat.ltb Nat.leb];
    [change (strconv.Atoi EmptyString) with (@inr Z _ ErrSyntax)
    |destruct (strconv.Atoi (String ch s))
    |];
    cbv beta iota; cbn [thread_step]; rewrite Ht; cbv beta iota;
    eexists _, _; split; reflexivity.
Qed.


Lemma sample_counts_fit (cs : list Comment) :
  (length cs <= 1000)%nat ->
  forall m,
    count_of (stored Sample.world m) + Z.of_nat (calls_for m cs) <= GoInt.max_int.
Proof.
  intros Hlen m.
  assert (Hs : stored Sample.world m = None).
  { unfold stored. cbn [Sample.world db]. now rewrite lookup_empty. }
  rewrite Hs. cbn [count_of].
  assert (Hc : (calls_for m cs <= length cs)%nat).
  { unfold calls_for. clear Hlen. induction cs as [|c cs IH]; cbn [spawn map count_if length].
    - lia.
    - fold (spawn cs). destruct (for_mr m _); lia. }
  unfold GoInt.max_int. lia.
Qed.


Example concurrent_sample_count :
  let c := Sample.approval "LGTM" "can_be_merged" in
  stored (snd (run_thread Sample.flags 7 c AtLock
                 (snd (run_thread Sample.flags 7 c AtLock Sample.world)))) 42
  = Some "2".
Proof. vm_compute. reflexivity. Qed.

(** ** Examples of the conversions *)

Example Itoa_42 : strconv.Itoa 42 = "42".
Proof. reflexivity. Qed.

Example Itoa_neg : strconv.Itoa (-7) = "-7".
Proof. reflexivity. Qed.

Example Itoa_zero : strconv.Itoa 0 = "0".
Proof. reflexivity. Qed.

Example Atoi_plus : strconv.Atoi "+15" = inl 15.
Proof. reflexivity. Qed.

Example Atoi_leading_zero : strconv.Atoi "007" = inl 7.
Proof. reflexivity. Qed.

Example Atoi_junk : strconv.Atoi "1x" = inr ErrSyntax.
Proof. reflexivity. Qed.

Example Atoi_empty : strconv.Atoi EmptyString = inr ErrSyntax.
Proof. reflexivity. Qed.

Example Atoi_sign_only : strconv.Atoi "-" = inr ErrSyntax.
Proof. reflexivity. Qed.

Example Atoi_big : strconv.Atoi "9223372036854775808" = inr ErrRange.
Proof. reflexivity. Qed.

Example Atoi_min : strconv.Atoi "-9223372036854775808" = inl GoInt.min_int.
Proof. reflexivity. Qed.

Example ToUpper_mixed up : strings.ToUpper up "lgtm Please!" = "LGTM PLEASE!".
Proof. reflexivity. Qed.

(** * Further properties *)

(** ** [checkLGTMCount] on every path *)

(** The paths of [checkLGTMCount], one goal each, closed by [fin]. *)
Ltac counter_paths w env flags H fin :=
  unfold_counter;
  destruct (mutex w) eqn:Hmx; [injection H as <- <-; fin|]; simpl_world;
  destruct (db_rwlock w) eqn:Hrw; [injection H as <- <-; fin|];
  destruct (fail_Begin (faults env)) eqn:Hfb; [injection H as <- <-; fin|];
  cbv beta iota in H;
  destruct (fail_CreateBucket (faults env)) eqn:Hfc; [injection H as <- <-; fin|];
  destruct (default ∅ (db w !! bucketName) !! _) as [[|ch s]|] eqn:Hget;
    cbn [from_option id String.length Nat.ltb Nat.leb count_of] in *;
    [change (strconv.Atoi EmptyString) with (@inr Z _ ErrSyntax) in *
    |destruct (strconv.Atoi (String ch s)) eqn:Hatoi
    |];
    cbv beta iota in H;
    (destruct (fail_Put (faults env)) eqn:Hfp; [injection H as <- <-; fin|]);
    (destruct (validLGTMCount flags =? 0) eqn:Hz; [injection H as <- <-; fin|]);
    (destruct (fail_Commit (faults env)) eqn:Hfm; injection H as <- <-; fin).

(** X1. Whatever way a call of [checkLGTMCount] ends other than returning
    without error (an error at any storage step, a panic, a wait that
    never ends), the committed store is exactly as it was before the
    call. *)
Theorem checkLGTMCount_store_unchanged_unless_success flags env comment w o w' :
  checkLGTMCount flags env comment w = (o, w') ->
  (forall b, o <> Returns (b, None)) ->
  db w' = db w.
Proof.
  intros H Ho.
  counter_paths w env flags H
    ltac:(simpl_world; first [reflexivity | exfalso; eapply Ho; reflexivity]).
Qed.

Lemma checkLGTMCount_store_unchanged_unless_success_witness :
  db (snd (checkLGTMCount Sample.flags Sample.env_commit_fails
             (Sample.approval "LGTM" "can_be_merged") Sample.world))
  = db Sample.world.
Proof.
  apply (checkLGTMCount_store_unchanged_unless_success Sample.flags
           Sample.env_commit_fails (Sample.approval "LGTM" "can_be_merged")
           Sample.world
           (fst (checkLGTMCount Sample.flags Sample.env_commit_fails
                   (Sample.approval "LGTM" "can_be_merged") Sample.world))).
  - apply surjective_pairing.
  - intros b. vm_compute. discriminate.
Defined.

(** X2. With a threshold of zero ([-lgtm_count=0]) and a storage that
    works, a call of [checkLGTMCount] panics on the integer division:
    nothing is committed, the store is as it was. *)
Theorem checkLGTMCount_zero_threshold flags env comment w :
  idle w ->
  validLGTMCount flags = 0 ->
  fail_Begin (faults env) = None ->
  fail_CreateBucket (faults env) = None ->
  fail_Put (faults env) = None ->
  exists w',
    checkLGTMCount flags env comment w = (Panics, w')
    /\ db w' = db w /\ mutex w' = false.
Proof.
  intros [Hm Hl] Ht Hb Hc Hp. unfold_counter. rewrite Hm. simpl_world.
  rewrite Hl, Hb. cbv beta iota. rewrite Hc, Hp, Ht.
  destruct (default ∅ (db w !! bucketName) !! _) as [[|ch s]|];
    cbn [from_option id String.length Nat.ltb Nat.leb];
    [change (strconv.Atoi EmptyString) with (@inr Z _ ErrSyntax)
    |destruct (strconv.Atoi (String ch s))
    |];
    cbv beta iota; cbn [Z.eqb]; cbv beta iota;
    (eexists; split; [reflexivity|]; simpl_world; auto).
Qed.

Lemma checkLGTMCount_zero_threshold_witness :
  exists w',
    checkLGTMCount Cases.flags_zero Sample.env (Cases.approval_for 42) Sample.world
    = (Panics, w')
    /\ db w' = db Sample.world /\ mutex w' = false.
Proof.
  apply (checkLGTMCount_zero_threshold Cases.flags_zero Sample.env
           (Cases.approval_for 42) Sample.world);
    try reflexivity.
  split; reflexivity.
Defined.

(** X3. For every non-zero threshold, negative ones included, and every
    stored count, negative ones included, a call with a working storage
    reports [thresholdReached = true] exactly when the threshold divides
    the incremented count. *)
Theorem checkLGTMCount_threshold_divides flags env comment w :
  idle w -> faults env = no_faults -> validLGTMCount flags <> 0 ->
  exists b w',
    checkLGTMCount flags env comment w = (Returns (b, None), w')
    /\ (b = true <->
        (validLGTMCount flags
         | GoInt.incr (count_of (stored w (Iid (MergeRequest comment)))))).
Proof.
  intros Hi Hf Ht.
  destruct (checkLGTMCount_success flags env comment w Hi Hf Ht) as (w' & Hc & _).
  eexists _, w'. split; [exact Hc|].
  unfold GoInt.rem. rewrite Z.eqb_eq. now apply Z.rem_divide.
Qed.

Lemma checkLGTMCount_threshold_divides_witness :
  exists b w',
    checkLGTMCount Cases.flags_negative Sample.env (Cases.approval_for 42)
      Sample.world = (Returns (b, None), w')
    /\ (b = true <-> (-3 | GoInt.incr (count_of (stored Sample.world 42)))).
Proof.
  apply (checkLGTMCount_threshold_divides Cases.flags_negative Sample.env
           (Cases.approval_for 42) Sample.world).
  - split; reflexivity.
  - reflexivity.
  - discriminate.
Defined.

(** X4. The bytes a successful call stores for its merge request are read
    back by [strconv.Atoi] as the count that was written -- for every
    [int], the wrapped-around one included -- so the next call never takes
    the entry for malformed. *)
Theorem checkLGTMCount_stored_round_trip flags env comment w b w' :
  checkLGTMCount flags env comment w = (Returns (b, None), w') ->
  exists bytes,
    stored w' (Iid (MergeRequest comment)) = Some bytes
    /\ strconv.Atoi bytes
       = inl (GoInt.incr (count_of (stored w (Iid (MergeRequest comment)))))
    /\ Nat.ltb 0 (String.length bytes) = true.
Proof.
  intros H. apply checkLGTMCount_returns_nil in H as (_ & _ & _ & Hdb & _).
  eexists. split; [apply (stored_incr_same _ _ _ Hdb)|]. split.
  - apply Atoi_Itoa, wrap_range.
  - apply Itoa_nonempty.
Qed.

Lemma checkLGTMCount_stored_round_trip_witness :
  exists bytes,
    stored (snd (checkLGTMCount Sample.flags Sample.env (Cases.approval_for 42)
                   Sample.world)) 42 = Some bytes
    /\ strconv.Atoi bytes = inl (GoInt.incr (count_of (stored Sample.world 42)))
    /\ Nat.ltb 0 (String.length bytes) = true.
Proof.
  apply (checkLGTMCount_stored_round_trip Sample.flags Sample.env
           (Cases.approval_for 42) Sample.world false).
  vm_compute. reflexivity.
Defined.

(** X5. A call in which [db.Begin] or [tx.Commit] fails neither counts nor
    gets in the way: the next call with a working storage finds the store
    and the locks as they were before the failed call, so it stores the
    increment of the count that was there then. *)
Theorem checkLGTMCount_recovers flags env1 comment1 env2 comment2 w err :
  idle w -> validLGTMCount flags <> 0 ->
  (fail_Begin (faults env1) = Some err
   \/ fail_Begin (faults env1) = None
      /\ fail_CreateBucket (faults env1) = None
      /\ fail_Put (faults env1) = None
      /\ fail_Commit (faults env1) = Some err) ->
  faults env2 = no_faults ->
  let w1 := snd (checkLGTMCount flags env1 comment1 w) in
  exists b w2,
    checkLGTMCount flags env2 comment2 w1 = (Returns (b, None), w2)
    /\ db w2 = db_incr (db w) (Iid (MergeRequest comment2)).
Proof.
  intros Hi Ht Hf1 Hf2 w1.
  assert (Hw1 : idle w1 /\ db w1 = db w).
  { subst w1. destruct Hf1 as [Hb | (Hb & Hc & Hp & Hcm)].
    - rewrite (checkLGTMCount_begin_fails flags env1 comment1 w err Hi Hb). auto.
    - destruct (checkLGTMCount_commit_fails flags env1 comment1 w err Hi Ht
                  Hb Hc Hp Hcm) as (w' & -> & Hdb & Hi'). auto. }
  destruct Hw1 as [Hi1 Hdb1].
  destruct (checkLGTMCount_success flags env2 comment2 w1 Hi1 Hf2 Ht)
    as (w2 & Hc & Hdb & _).
  eexists _, w2. split; [exact Hc|]. now rewrite Hdb, Hdb1.
Qed.

Lemma checkLGTMCount_recovers_witness :
  exists b w2,
    checkLGTMCount Sample.flags Sample.env (Cases.approval_for 42)
      (snd (checkLGTMCount Sample.flags Sample.env_commit_fails
              (Cases.approval_for 42) Sample.world))
    = (Returns (b, None), w2)
    /\ db w2 = db_incr (db Sample.world) 42.
Proof.
  apply (checkLGTMCount_recovers Sample.flags Sample.env_commit_fails
           (Cases.approval_for 42) Sample.env (Cases.approval_for 42)
           Sample.world (Err "write error")).
  - split; reflexivity.
  - discriminate.
  - right. repeat split; reflexivity.
  - reflexivity.
Defined.

Section MixedSequence.

Variable flags : Flags.
Variable envs : nat -> Env.
Variable comments : nat -> Comment.
Variable w0 : World.

Hypothesis threshold_nonzero : validLGTMCount flags <> 0.
Hypothesis storage_ok : forall i, faults (envs i) = no_faults.
Hypothesis start_idle : idle w0.

Lemma calls_before_mono m k :
  (calls_before comments m k <= calls_before comments m (S k))%nat.
Proof. cbn [calls_before]. lia. Qed.


End MixedSequence.


Example after_calls_mixed_sample :
  stored (after_calls Sample.flags (fun _ => Sample.env) Cases.alternating 5
            Sample.world) 42 = Some "3"
  /\ stored (after_calls Sample.flags (fun _ => Sample.env) Cases.alternating 5
               Sample.world) 43 = Some "2".
Proof. vm_compute. split; reflexivity. Qed.

(** ** [acceptMergeRequest] on every path *)

Section MergeFacts.

Variable flags : Flags.
Variable json_Marshal : list (string * string) -> string + error.
Variable URL_String : URL -> string.
Variable url_Parse : string -> URL + error.

Abbreviation accept' :=
  (acceptMergeRequest flags json_Marshal URL_String url_Parse).

Lemma acceptMergeRequest_effects env projectID iid remove w :
  exists w',
    accept' env projectID iid remove w = (Returns tt, w')
    /\ db w' = db w /\ mutex w' = mutex w /\ db_rwlock w' = db_rwlock w
    /\ reviewers w' = reviewers w
    /\ (sent w' = sent w \/ exists req, sent w' = (sent w ++ [req])%list)
    /\ exists entry, logs w' = (logs w ++ [entry])%list.
Proof.
  unfold_merge.
  destruct (json_Marshal _) as [body|err]; cbv beta iota.
  2:{ eexists; split; [reflexivity|]. simpl_world. eauto 10. }
  simpl_world.
  destruct (url_Parse _) as [u|err]; cbv beta iota.
  2:{ eexists; split; [reflexivity|]. simpl_world. eauto 10. }
  simpl_world.
  destruct (http_Do env _) as [resp|err]; cbv beta iota.
  2:{ eexists; split; [reflexivity|]. simpl_world. eauto 12. }
  destruct (StatusCode resp =? 200);
    [|destruct (StatusCode resp =? 405); [|destruct (StatusCode resp =? 406)]];
    (eexists; split; [reflexivity|]; simpl_world; eauto 12).
Qed.



(** X9. The two ways not to send: when [json.Marshal] fails nothing is
    sent and [glURL] is untouched; when [http.NewRequest] fails nothing is
    sent either, but [glURL.Path] has already been extended by the path of
    the call. *)
Theorem acceptMergeRequest_not_sent env projectID iid remove w :
  (forall err,
     json_Marshal [("should_remove_source_branch", remove)] = inr err ->
     sent (snd (accept' env projectID iid remove w)) = sent w
     /\ glURL (snd (accept' env projectID iid remove w)) = glURL w)
  /\ (forall body err,
        json_Marshal [("should_remove_source_branch", remove)] = inl body ->
        url_Parse (URL_String (with_Path (glURL w)
                                 (Path (glURL w) +:+ merge_path projectID iid)))
        = inr err ->
        sent (snd (accept' env projectID iid remove w)) = sent w
        /\ Path (glURL (snd (accept' env projectID iid remove w)))
           = Path (glURL w) +:+ merge_path projectID iid).
Proof.
  split.
  - intros err Hj. unfold_merge. rewrite Hj. cbn. auto.
  - intros body err Hj Hp. unfold_merge. rewrite Hj. cbv beta iota. simpl_world.
    rewrite Hp. cbn. auto.
Qed.

Lemma append_assoc (a b c : string) : (a +:+ b) +:+ c = a +:+ (b +:+ c).
Proof.
  induction a as [|ch a IH]; [reflexivity|].
  change (String ch ((a +:+ b) +:+ c) = String ch (a +:+ (b +:+ c))).
  now f_equal.
Qed.

Lemma append_empty_r (a : string) : a +:+ EmptyString = a.
Proof.
  induction a as [|ch a IH]; [reflexivity|].
  change (String ch (a +:+ EmptyString) = String ch a). now f_equal.
Qed.

(** X10. [glURL] grows over the life of the process: after any list of
    merge calls, whatever [http.NewRequest] and GitLab answered to each,
    its path is the path it started with followed by the path templates
    of all the calls in order, and its other fields are as they were
    (provided [json.Marshal] does not fail, as it cannot on a map of
    strings). *)
Theorem after_merges_path envs calls i w :
  (forall kv, exists body, json_Marshal kv = inl body) ->
  glURL (after_merges flags json_Marshal URL_String url_Parse envs calls i w)
  = with_Path (glURL w) (Path (glURL w) +:+ merge_paths calls).
Proof.
  intros Hj. revert i w.
  induction calls as [|[[projectID iid] remove] rest IH]; intros i w.
  - cbn [after_merges merge_paths]. rewrite append_empty_r.
    now destruct (glURL w).
  - cbn [after_merges merge_paths]. rewrite IH.
    assert (Hg : glURL (snd (accept' (envs i) projectID iid remove w))
                 = with_Path (glURL w) (Path (glURL w) +:+ merge_path projectID iid)).
    { unfold_merge. destruct (Hj [("should_remove_source_branch", remove)])
        as (body & ->). cbv beta iota. simpl_world.
      destruct (url_Parse _) as [u|err]; cbv beta iota; [|reflexivity].
      simpl_world.
      destruct (http_Do (envs i) _) as [resp|err]; cbv beta iota; [|reflexivity].
      destruct (StatusCode resp =? 200);
        [|destruct (StatusCode resp =? 405); [|destruct (StatusCode resp =? 406)]];
        reflexivity. }
    rewrite Hg. unfold with_Path. cbn [Scheme Opaque UserInfo Host Path RawPath
                                        ForceQuery RawQuery Fragment].
    now rewrite append_assoc.
Qed.

End MergeFacts.


Lemma after_merges_path_witness :
  glURL (after_merges Sample.flags Sample.marshal Sample.url_string
           Sample.url_parse (fun _ => Cases.env_conflict)
           [(7, 42, "true"); (7, 43, "false"); (8, 1, "true")] 0 Sample.world)
  = with_Path (glURL Sample.world)
      (Path (glURL Sample.world)
       +:+ merge_paths [(7, 42, "true"); (7, 43, "false"); (8, 1, "true")]).
Proof.
  apply (after_merges_path Sample.flags Sample.marshal Sample.url_string
           Sample.url_parse).
  intros kv. eexists. reflexivity.
Defined.

Lemma acceptMergeRequest_not_sent_witness :
  sent (snd (acceptMergeRequest Sample.flags Sample.marshal Sample.url_string
               (fun _ => inr (Err "invalid URL escape")) Sample.env 7 42 "true"
               Sample.world)) = sent Sample.world
  /\ Path (glURL (snd (acceptMergeRequest Sample.flags Sample.marshal
                         Sample.url_string
                         (fun _ => inr (Err "invalid URL escape")) Sample.env
                         7 42 "true" Sample.world)))
     = Path (glURL Sample.world) +:+ merge_path 7 42.
Proof.
  refine (proj2 (acceptMergeRequest_not_sent Sample.flags Sample.marshal
                   Sample.url_string (fun _ => inr (Err "invalid URL escape"))
                   Sample.env 7 42 "true" Sample.world) _ _ eq_refl eq_refl).
Defined.

(** ** Events on every path *)

Lemma checkLGTMCount_db_cases flags env comment w o w' :
  checkLGTMCount flags env comment w = (o, w') ->
  db w' = db w \/ db w' = db_incr (db w) (Iid (MergeRequest comment)).
Proof.
  intros H. unfold db_incr.
  counter_paths w env flags H ltac:(simpl_world; auto).
Qed.

Section EventFacts.

Variable flags : Flags.
Variable unicode_upper : string -> string.
Variable yaml_Unmarshal : string -> Conf -> Conf + error.
Variable json_Marshal : list (string * string) -> string + error.
Variable URL_String : URL -> string.
Variable url_Parse : string -> URL + error.

Abbreviation approved' :=
  (checkLgtm_approved flags json_Marshal URL_String url_Parse).
Abbreviation event' :=
  (checkLgtm flags unicode_upper yaml_Unmarshal json_Marshal URL_String url_Parse).

Lemma checkLgtm_approved_result env comment w o w' :
  approved' env comment w = (o, w') ->
  db w' = db (snd (checkLGTMCount flags env comment (add_log LevelInfo "comment" w)))
  /\ (forall r, o = Returns r -> r = None).
Proof.
  unfold checkLgtm_approved, log, bind, modify, ret.
  destruct (checkLGTMCount flags env comment (add_log LevelInfo "comment" w))
    as [o2 w2]. cbn [snd].
  destruct o2 as [[b [e|]]| | |]; try (intros [= <- <-]; simpl_world; split;
                                         [reflexivity|congruence]).
  destruct (b && _).
  - destruct (acceptMergeRequest_effects flags json_Marshal URL_String url_Parse
                env (ProjectID comment) (Iid (MergeRequest comment))
                (ForceRemoveSourceBranch (MergeParams (MergeRequest comment)))
                (add_log LevelInfo "The MR can be merged." w2))
      as (w3 & -> & Hdb & _).
    intros [= <- <-]. split; [exact Hdb|congruence].
  - intros [= <- <-]. simpl_world. split; [reflexivity|congruence].
Qed.

Lemma checkLgtm_result env comment w o w' :
  event' env comment w = (o, w') ->
  (db w' = db w \/ db w' = db_incr (db w) (Iid (MergeRequest comment)))
  /\ (forall r, o = Returns r -> r = None).
Proof.
  intros H.
  destruct (String.eqb (ObjectKind comment) ObjectNote) eqn:Hk.
  2:{ apply String.eqb_neq in Hk.
      rewrite (checkLgtm_wrong_kind flags unicode_upper yaml_Unmarshal json_Marshal
                 URL_String url_Parse env comment w Hk) in H.
      injection H as <- <-. split; [auto|congruence]. }
  apply String.eqb_eq in Hk.
  destruct (checkReviewers yaml_Unmarshal env comment w) as [o1 w1] eqn:Hr.
  pose proof (checkReviewers_frame _ _ _ _ _ _ Hr) as (F1 & _).
  destruct o1 as [ok| | |].
  - destruct ok.
    + destruct (String.eqb (NoteableType (ObjectAttributes comment))
                  NoteableTypeMergeRequest) eqn:Ht.
      2:{ apply String.eqb_neq in Ht.
          rewrite (checkLgtm_rejects flags unicode_upper yaml_Unmarshal json_Marshal
                     URL_String url_Parse env comment w true w1 Hk Hr) in H by auto.
          injection H as <- <-. split; [auto|congruence]. }
      apply String.eqb_eq in Ht.
      destruct (is_lgtm_note flags unicode_upper (Note (ObjectAttributes comment)))
        eqn:Hn.
      2:{ rewrite (checkLgtm_rejects flags unicode_upper yaml_Unmarshal json_Marshal
                     URL_String url_Parse env comment w true w1 Hk Hr) in H by auto.
          injection H as <- <-. split; [auto|congruence]. }
      rewrite (checkLgtm_passes flags unicode_upper yaml_Unmarshal json_Marshal
                 URL_String url_Parse env comment w w1 Hk Hr Ht Hn) in H.
      apply checkLgtm_approved_result in H as (Hdb & Hnil).
      split; [|exact Hnil].
      destruct (checkLGTMCount flags env comment (add_log LevelInfo "comment" w1))
        as [o2 w2] eqn:Hc.
      apply checkLGTMCount_db_cases in Hc. cbn [snd] in Hdb. simpl_world.
      rewrite Hdb, <- F1. exact Hc.
    + rewrite (checkLgtm_rejects flags unicode_upper yaml_Unmarshal json_Marshal
                 URL_String url_Parse env comment w false w1 Hk Hr) in H by auto.
      injection H as <- <-. split; [auto|congruence].
  - pose proof (checkLgtm_policy_stops flags unicode_upper yaml_Unmarshal json_Marshal
                  URL_String url_Parse env comment w _ w1 Hk Hr ltac:(discriminate))
      as Hw.
    rewrite H in Hw. cbn [snd] in Hw. subst w'. split; [auto|].
    intros r ->. unfold checkLgtm in H. apply String.eqb_eq in Hk.
    rewrite Hk in H. cbn [negb] in H. unfold bind at 1 in H. rewrite Hr in H.
    discriminate.
  - pose proof (checkLgtm_policy_stops flags unicode_upper yaml_Unmarshal json_Marshal
                  URL_String url_Parse env comment w _ w1 Hk Hr ltac:(discriminate))
      as Hw.
    rewrite H in Hw. cbn [snd] in Hw. subst w'. split; [auto|].
    intros r ->. unfold checkLgtm in H. apply String.eqb_eq in Hk.
    rewrite Hk in H. cbn [negb] in H. unfold bind at 1 in H. rewrite Hr in H.
    discriminate.
  - pose proof (checkLgtm_policy_stops flags unicode_upper yaml_Unmarshal json_Marshal
                  URL_String url_Parse env comment w _ w1 Hk Hr ltac:(discriminate))
      as Hw.
    rewrite H in Hw. cbn [snd] in Hw. subst w'. split; [auto|].
    intros r ->. unfold checkLgtm in H. apply String.eqb_eq in Hk.
    rewrite Hk in H. cbn [negb] in H. unfold bind at 1 in H. rewrite Hr in H.
    discriminate.
Qed.

(** X11. [checkLgtm] never reports an error: whenever it returns, on any
    event and whatever the storage and GitLab did, the error it returns is
    [nil]. *)
Theorem checkLgtm_error_always_nil env comment w r w' :
  event' env comment w = (Returns r, w') -> r = None.
Proof.
  intros H. apply checkLgtm_result in H as (_ & Hnil). now apply Hnil.
Qed.


End EventFacts.

Lemma checkLgtm_error_always_nil_witness :
  fst (checkLgtm Sample.flags (fun s => s) Sample.yaml_rejects Sample.marshal
         Sample.url_string Sample.url_parse Sample.env_commit_fails
         (Cases.approval_for 42) Sample.world)
  = Returns None.
Proof.
  assert (H : exists r w',
             checkLgtm Sample.flags (fun s => s) Sample.yaml_rejects Sample.marshal
               Sample.url_string Sample.url_parse Sample.env_commit_fails
               (Cases.approval_for 42) Sample.world = (Returns r, w')).
  { eexists _, _. vm_compute. reflexivity. }
  destruct H as (r & w' & H). rewrite H. cbn [fst]. f_equal.
  exact (checkLgtm_error_always_nil _ _ _ _ _ _ _ _ _ _ _ H).
Defined.


(** ** From events to merge requests *)

Lemma div_succ k t :
  1 <= t -> 0 <= k ->
  (k + 1) / t = k / t + (if (k + 1) mod t =? 0 then 1 else 0).
Proof.
  intros Ht Hk.
  pose proof (Z.div_mod k t ltac:(lia)) as E.
  pose proof (Z.mod_pos_bound k t ltac:(lia)) as B.
  destruct (Z.eqb_spec ((k + 1) mod t) 0) as [H0|H0].
  - symmetry. apply (Z.div_unique (k + 1) t (k / t + 1) 0); [lia|].
    pose proof (Z.div_mod (k + 1) t ltac:(lia)) as E1. rewrite H0 in E1.
    assert (k mod t + 1 = t); [|lia].
    assert (Hd : (t | k mod t + 1)).
    { exists ((k + 1) / t - k / t). lia. }
    destruct Hd as [q Hq]. assert (q = 1) by nia. lia.
  - rewrite Z.add_0_r. symmetry.
    apply (Z.div_unique (k + 1) t (k / t) (k mod t + 1)); [|lia].
    assert (k mod t + 1 <> t); [|lia].
    intros Heq. apply H0. symmetry.
    apply (Z.mod_unique (k + 1) t (k / t + 1) 0); lia.
Qed.

Section EndToEnd.

Variable flags : Flags.
Variable unicode_upper : string -> string.
Variable yaml_Unmarshal : string -> Conf -> Conf + error.
Variable json_Marshal : list (string * string) -> string + error.
Variable URL_String : URL -> string.
Variable url_Parse : string -> URL + error.
Variable envs : nat -> Env.
Variable comments : nat -> Comment.
Variable m : Z.
Variable w0 : World.

Let t := validLGTMCount flags.

Hypothesis threshold_pos : 1 <= t.
(** [json.Marshal] and [http.NewRequest] succeed on what the events hand
    them: the parameters of each event, and the URL that an event which
    reaches the threshold builds from the [glURL] of that moment. *)
Hypothesis marshal_ok : forall i,
  exists body,
    json_Marshal
      [("should_remove_source_branch",
        ForceRemoveSourceBranch (MergeParams (MergeRequest (comments i))))]
    = inl body.
Hypothesis parse_ok : forall i,
  Z.of_nat (S i) mod t = 0 ->
  exists u,
    url_Parse
      (URL_String
         (built_url
            (glURL (after_events flags unicode_upper yaml_Unmarshal json_Marshal
                      URL_String url_Parse envs comments i w0))
            (comments i)))
    = inl u.
Hypothesis no_reviewers_file : forall i, reviewers_yaml (envs i) = None.
Hypothesis storage_ok : forall i, faults (envs i) = no_faults.
Hypothesis qualifying : forall i,
  ObjectKind (comments i) = ObjectNote
  /\ NoteableType (ObjectAttributes (comments i)) = NoteableTypeMergeRequest
  /\ is_lgtm_note flags unicode_upper (Note (ObjectAttributes (comments i))) = true
  /\ Iid (MergeRequest (comments i)) = m
  /\ MergeStatus (MergeRequest (comments i)) = StatusCanbeMerged.
Hypothesis start_idle : idle w0.
Hypothesis start_fresh : stored w0 m = None.

Abbreviation events' :=
  (after_events flags unicode_upper yaml_Unmarshal json_Marshal URL_String
     url_Parse envs comments).

(** One qualifying, mergeable event on an idle process. *)
Lemma qualifying_event i w :
  idle w ->
  (GoInt.rem (GoInt.incr (count_of (stored w m))) t = 0 ->
   exists u, url_Parse (URL_String (built_url (glURL w) (comments i))) = inl u) ->
  exists w',
    checkLgtm flags unicode_upper yaml_Unmarshal json_Marshal URL_String url_Parse
      (envs i) (comments i) w = (Returns None, w')
    /\ db w' = db_incr (db w) m
    /\ idle w'
    /\ length (sent w')
       = (length (sent w)
          + (if (GoInt.rem (GoInt.incr (count_of (stored w m))) t =? 0)%Z
             then 1 else 0))%nat.
Proof.
  intros Hidle Hparse.
  destruct (qualifying i) as (Hk & Ht & Hn & Hm & Hs).
  rewrite (checkLgtm_passes flags unicode_upper yaml_Unmarshal json_Marshal
             URL_String url_Parse (envs i) (comments i) w w Hk
             (checkReviewers_no_file yaml_Unmarshal (envs i) (comments i) w
                (no_reviewers_file i)) Ht Hn).
  unfold checkLgtm_approved, log, bind, modify, ret.
  destruct (checkLGTMCount_success flags (envs i) (comments i)
              (add_log LevelInfo "comment" w))
    as (w2 & Hc & Hdb & Hidle2 & _ & _ & Hsent2);
    [exact Hidle|apply storage_ok|fold t; lia|].
  rewrite Hc. rewrite Hm in *. apply String.eqb_eq in Hs. rewrite Hs, andb_true_r.
  fold t. rewrite (stored_same_db w (add_log LevelInfo "comment" w)) by reflexivity.
  simpl_world.
  destruct (Z.eqb_spec (GoInt.rem (GoInt.incr (count_of (stored w m))) t) 0)
    as [Hreach|_].
  - set (w3 := add_log LevelInfo "The MR can be merged." w2).
    destruct (acceptMergeRequest_effects flags json_Marshal URL_String url_Parse
                (envs i) (ProjectID (comments i)) m
                (ForceRemoveSourceBranch (MergeParams (MergeRequest (comments i))))
                w3)
      as (w4 & Hacc & Hdb4 & Hm4 & Hl4 & _).
    destruct (marshal_ok i) as (body & Hj).
    destruct (Hparse Hreach) as (u & Hp).
    assert (Hg : glURL w3 = glURL w).
    { subst w3. simpl_world.
      destruct (checkLGTMCount_success flags (envs i) (comments i)
                  (add_log LevelInfo "comment" w))
        as (w2' & Hc' & _ & _ & _ & Hg' & _);
        [exact Hidle|apply storage_ok|fold t; lia|].
      rewrite Hm in Hc'. rewrite Hc in Hc'. injection Hc' as <-. exact Hg'. }
    unfold built_url in Hp. rewrite Hm, <- Hg in Hp.
    pose proof (acceptMergeRequest_request flags json_Marshal URL_String url_Parse
                  (envs i) w3 (ProjectID (comments i)) m _ body u Hj Hp)
      as (_ & Hsent & _).
    rewrite Hacc in Hsent |- *. cbn [snd] in Hsent.
    eexists. split; [reflexivity|].
    split; [rewrite Hdb4; subst w3; simpl_world; exact Hdb|].
    split.
    { destruct Hidle2 as [I1 I2]. split; [rewrite Hm4|rewrite Hl4];
        subst w3; simpl_world; assumption. }
    rewrite Hsent, length_app. subst w3. simpl_world. rewrite Hsent2.
    cbn [length]. reflexivity.
  - eexists. split; [reflexivity|]. simpl_world.
    split; [exact Hdb|]. split; [exact Hidle2|]. rewrite Hsent2. lia.
Qed.

(** X13. End to end: [k] approvals of a mergeable merge request on a
    fresh entry, each passing the four checks, with a working storage, no
    [reviewers.yaml] and a threshold [t >= 1], where [json.Marshal]
    accepts each event's parameters and [http.NewRequest] accepts the URL
    built by each event that reaches the threshold, send exactly [k / t]
    merge requests in all (one each time the count reaches a multiple of
    [t]), leave the count at [k] and no lock held. *)
Theorem events_send_every_threshold k :
  Z.of_nat k <= GoInt.max_int ->
  length (sent (events' k w0))
  = (length (sent w0) + Z.to_nat (Z.of_nat k / t))%nat
  /\ count_of (stored (events' k w0) m) = Z.of_nat k
  /\ idle (events' k w0).
Proof.
  induction k as [|k IH]; intros Hk.
  - cbn [after_events]. rewrite start_fresh. cbn [count_of].
    rewrite Z.div_0_l by lia. cbn. split; [lia|]. split; [reflexivity|].
    exact start_idle.
  - destruct IH as (Hlen & Hcount & Hidle); [lia|].
    cbn [after_events].
    destruct (qualifying_event k _ Hidle) as (w' & Hev & Hdb & Hidle' & Hsent).
    { rewrite Hcount.
      rewrite incr_below_max by (unfold GoInt.min_int, GoInt.max_int in *; lia).
      unfold GoInt.rem. rewrite Z.rem_mod_nonneg by lia.
      replace (Z.of_nat k + 1) with (Z.of_nat (S k)) by lia.
      apply parse_ok. }
    rewrite Hev. cbn [snd].
    pose proof (stored_incr_same _ _ _ Hdb) as Hs. rewrite Hcount in Hs, Hsent.
    rewrite incr_below_max in Hs, Hsent
      by (unfold GoInt.min_int, GoInt.max_int in *; lia).
    split; [|split; [|exact Hidle']].
    + rewrite Hsent, Hlen.
      replace (Z.of_nat (S k)) with (Z.of_nat k + 1) by lia.
      rewrite (div_succ (Z.of_nat k) t) by lia.
      unfold GoInt.rem. rewrite Z.rem_mod_nonneg by lia.
      pose proof (Z.div_pos (Z.of_nat k) t ltac:(lia) ltac:(lia)).
      destruct ((Z.of_nat k + 1) mod t =? 0); lia.
    + rewrite Hs. rewrite count_of_Itoa; [lia|].
      unfold GoInt.in_range, GoInt.min_int. lia.
Qed.

End EndToEnd.

Lemma events_send_every_threshold_witness :
  length (sent (after_events Sample.flags (fun s => s) Sample.yaml_rejects
                  Sample.marshal Sample.url_string Sample.url_parse
                  (fun _ => Sample.env) (fun _ => Cases.approval_for 42) 5
                  Sample.world))
  = (length (sent Sample.world) + Z.to_nat (Z.of_nat 5 / 2))%nat
  /\ count_of (stored (after_events Sample.flags (fun s => s) Sample.yaml_rejects
                         Sample.marshal Sample.url_string Sample.url_parse
                         (fun _ => Sample.env) (fun _ => Cases.approval_for 42) 5
                         Sample.world) 42) = Z.of_nat 5
  /\ idle (after_events Sample.flags (fun s => s) Sample.yaml_rejects
             Sample.marshal Sample.url_string Sample.url_parse
             (fun _ => Sample.env) (fun _ => Cases.approval_for 42) 5
             Sample.world).
Proof.
  apply (events_send_every_threshold Sample.flags (fun s => s) Sample.yaml_rejects
           Sample.marshal Sample.url_string Sample.url_parse
           (fun _ => Sample.env) (fun _ => Cases.approval_for 42) 42 Sample.world).
  - cbn. lia.
  - intros i. eexists. reflexivity.
  - intros i _. eexists. reflexivity.
  - reflexivity.
  - reflexivity.
  - intros i. repeat split; reflexivity.
  - split; reflexivity.
  - reflexivity.
  - vm_compute. discriminate.
Defined.

Example five_approvals_two_merges :
  map req_url
    (sent (after_events Sample.flags (fun s => s) Sample.yaml_rejects
             Sample.marshal Sample.url_string Sample.url_parse
             (fun _ => Sample.env) (fun _ => Cases.approval_for 42) 5
             Sample.world))
  = [ "https://your.gitlab.com/api/v4/projects/7/merge_requests/42/merge";
      "https://your.gitlab.com/api/v4/projects/7/merge_requests/42/merge/api/v4/projects/7/merge_requests/42/merge" ].
Proof. vm_compute. reflexivity. Qed.

(** ** The reviewer policy and its log *)



(** ** Process start *)

(** X15. [main] gets as far as registering the handler exactly when the
    token and the GitLab URL are non-empty, the data file opens and the
    URL parses; the globals are then the buckets of the file and the
    parsed URL.  It panics exactly when only the parse fails; with an empty
    token or URL the process exits with the store untouched, and with both
    given it exits when the data file does not open. *)
Theorem main_starts flags url_Parse gitlabURL opened w :
  (fst (main flags url_Parse gitlabURL opened w) = Returns tt <->
   privateToken flags <> EmptyString /\ gitlabURL <> EmptyString
   /\ (exists buckets, opened = inl buckets)
   /\ (exists u, url_Parse gitlabURL = inl u))
  /\ (forall buckets u,
        fst (main flags url_Parse gitlabURL opened w) = Returns tt ->
        opened = inl buckets -> url_Parse gitlabURL = inl u ->
        db (snd (main flags url_Parse gitlabURL opened w)) = buckets
        /\ glURL (snd (main flags url_Parse gitlabURL opened w)) = u)
  /\ (fst (main flags url_Parse gitlabURL opened w) = Panics <->
      privateToken flags <> EmptyString /\ gitlabURL <> EmptyString
      /\ (exists buckets, opened = inl buckets)
      /\ (exists err, url_Parse gitlabURL = inr err))
  /\ (privateToken flags = EmptyString \/ gitlabURL = EmptyString ->
      fst (main flags url_Parse gitlabURL opened w) = Exits
      /\ db (snd (main flags url_Parse gitlabURL opened w)) = db w)
  /\ (forall err,
        privateToken flags <> EmptyString -> gitlabURL <> EmptyString ->
        opened = inr err ->
        fst (main flags url_Parse gitlabURL opened w) = Exits).
Proof.
  unfold main, parseURL. unfold_monad.
  destruct (String.eqb_spec (privateToken flags) EmptyString) as [Ht|Ht];
    cbv beta iota.
  { cbn [fst snd]. simpl_world. split; [|split; [|split; [|split]]].
    - split; [discriminate|tauto].
    - discriminate.
    - split; [discriminate|tauto].
    - auto.
    - tauto. }
  destruct (String.eqb_spec gitlabURL EmptyString) as [Hu|Hu]; cbv beta iota.
  { cbn [fst snd]. simpl_world. split; [|split; [|split; [|split]]].
    - split; [discriminate|tauto].
    - discriminate.
    - split; [discriminate|tauto].
    - auto.
    - tauto. }
  destruct opened as [buckets|err]; cbv beta iota.
  2:{ cbn [fst snd]. split; [|split; [|split; [|split]]].
      - split; [discriminate|]. intros (_ & _ & (bk & Hbk) & _). discriminate.
      - discriminate.
      - split; [discriminate|]. intros (_ & _ & (bk & Hbk) & _). discriminate.
      - tauto.
      - reflexivity. }
  destruct (url_Parse gitlabURL) as [u|err]; cbn [fst snd]; simpl_world.
  - split; [|split; [|split; [|split]]].
    + split; [eauto 10|reflexivity].
    + intros bk u' _ [= <-] [= <-]. auto.
    + split; [discriminate|]. intros (_ & _ & _ & (e & He)). discriminate.
    + tauto.
    + discriminate.
  - split; [|split; [|split; [|split]]].
    + split; [discriminate|]. intros (_ & _ & _ & (u & Hu')). discriminate.
    + discriminate.
    + split; [eauto 10|reflexivity].
    + tauto.
    + discriminate.
Qed.

Lemma main_starts_witness :
  fst (main Sample.flags Sample.url_parse "https://your.gitlab.com" (inl ∅)
         Sample.world) = Returns tt
  /\ fst (main Cases.flags_no_token (fun _ => inr (Err "missing protocol scheme"))
            "::" (inr (Err "timeout")) Sample.world) = Exits.
Proof.
  split.
  - apply (proj1 (main_starts Sample.flags Sample.url_parse
                    "https://your.gitlab.com" (inl ∅) Sample.world)).
    repeat split; try discriminate; eexists; reflexivity.
  - apply (proj1 (proj2 (proj2 (proj2 (main_starts Cases.flags_no_token
                                         (fun _ => inr (Err "missing protocol scheme"))
                                         "::" (inr (Err "timeout")) Sample.world))))).
    left. reflexivity.
Defined.

(** ** The approval keyword, for an upper-case keyword *)

Lemma same_letter_upper c1 c2 :
  strings.is_lower c2 = false ->
  same_letter c1 c2 = Ascii.eqb (strings.upper_byte c1) c2.
Proof.
  intros H2. unfold same_letter. rewrite H2. cbn [andb]. rewrite orb_false_r.
  unfold strings.upper_byte. destruct (strings.is_lower c1) eqn:H1; cbn [andb].
  - destruct (Ascii.eqb_spec c1 c2) as [->|_]; [congruence|reflexivity].
  - now rewrite orb_false_r.
Qed.

Lemma eqb_upper_equal_fold s w :
  strings.all_bytes (fun c => negb (strings.is_lower c)) w = true ->
  String.eqb (strings.map_bytes strings.upper_byte s) w = equal_fold s w.
Proof.
  revert w. induction s as [|c s IH]; intros [|c2 w] Hw;
    cbn [strings.map_bytes equal_fold String.eqb]; try reflexivity.
  cbn [strings.all_bytes] in Hw. apply andb_prop in Hw as [Hc Hw].
  apply negb_true_iff in Hc.
  rewrite same_letter_upper by assumption. rewrite IH by assumption.
  now destruct (Ascii.eqb _ c2).
Qed.

(** X16. When the configured keyword holds no lower-case ASCII letter (as
    the default ["LGTM"]), an ASCII note is an approval exactly when it
    equals the keyword up to the case of its letters -- nothing before,
    after or in between is tolerated. *)
Theorem is_lgtm_note_equal_fold flags unicode_upper note :
  strings.all_bytes strings.is_ascii note = true ->
  strings.all_bytes (fun c => negb (strings.is_lower c)) (lgtmNote flags) = true ->
  is_lgtm_note flags unicode_upper note = equal_fold note (lgtmNote flags).
Proof.
  intros Ha Hw. unfold is_lgtm_note. rewrite ToUpper_ascii by assumption.
  now apply eqb_upper_equal_fold.
Qed.

Lemma is_lgtm_note_equal_fold_witness :
  is_lgtm_note Sample.flags (fun s => s) "LgTm" = equal_fold "LgTm" "LGTM".
Proof.
  apply (is_lgtm_note_equal_fold Sample.flags (fun s => s) "LgTm"); reflexivity.
Defined.

Example equal_fold_samples :
  equal_fold "LgTm" "LGTM" = true
  /\ equal_fold "lgtm " "LGTM" = false
  /\ equal_fold "lgtm!" "LGTM!" = true
  /\ equal_fold "lgt" "LGTM" = false.
Proof. repeat split. Qed.

(** ** Schedules are short *)

Lemma steps_left_spawn comments :
  steps_left (spawn comments) = (7 * length comments)%nat.
Proof.
  induction comments as [|c cs IH]; cbn [spawn map steps_left length th_pc pc_rank];
    [reflexivity|]. fold (spawn cs). rewrite IH. lia.
Qed.



(** ** Threshold decisions under concurrency *)

Lemma div_succ_rem k t :
  1 <= t ->
  (k + 1) / t = k / t + (if GoInt.rem (k + 1) t =? 0 then 1 else 0).
Proof.
  intros Ht. unfold GoInt.rem.
  assert (Hb : (Z.rem (k + 1) t =? 0) = ((k + 1) mod t =? 0)).
  { destruct (Z.eqb_spec (Z.rem (k + 1) t) 0) as [H|H],
             (Z.eqb_spec ((k + 1) mod t) 0) as [H'|H']; try reflexivity; exfalso.
    - apply H'. apply Z.mod_divide; [lia|]. apply Z.rem_divide in H; [exact H|lia].
    - apply H. apply Z.rem_divide; [lia|]. apply Z.mod_divide in H'; [exact H'|lia]. }
  rewrite Hb.
  pose proof (Z.div_mod k t ltac:(lia)) as E.
  pose proof (Z.mod_pos_bound k t ltac:(lia)) as B.
  destruct (Z.eqb_spec ((k + 1) mod t) 0) as [H0|H0].
  - symmetry. apply (Z.div_unique (k + 1) t (k / t + 1) 0); [lia|].
    pose proof (Z.div_mod (k + 1) t ltac:(lia)) as E1. rewrite H0 in E1.
    assert (k mod t + 1 = t); [|lia].
    assert (Hd : (t | k mod t + 1)).
    { exists ((k + 1) / t - k / t). lia. }
    destruct Hd as [q Hq]. assert (q = 1) by nia. lia.
  - rewrite Z.add_0_r. symmetry.
    apply (Z.div_unique (k + 1) t (k / t) (k mod t + 1)); [|lia].
    assert (k mod t + 1 <> t); [|lia].
    intros Heq. apply H0. symmetry.
    apply (Z.mod_unique (k + 1) t (k / t + 1) 0); lia.
Qed.

Lemma reached_for_step m l1 c p' l2 :
  reached_for m (l1 ++ {| th_comment := c; th_pc := p' |} :: l2)%list
  = (reached_for m l1
     + (if (Iid (MergeRequest c) =? m)%Z
           && reported {| th_comment := c; th_pc := p' |} then 1 else 0)
     + reached_for m l2)%nat.
Proof.
  unfold reached_for. rewrite count_if_app. cbn [count_if].
  unfold for_mr. cbn [th_comment]. lia.
Qed.

Lemma outside_cs_decided flags w l :
  count_if in_cs l = 0%nat -> Forall (decided_ok flags w) l.
Proof.
  intros H. apply count_if_zero in H.
  eapply Forall_impl; [exact H|]. cbn. intros [c p] Hc.
  unfold decided_ok. destruct p; cbn in *; try exact I. discriminate.
Qed.

Section DecisionFacts.

Variable flags : Flags.
Variable comments : list Comment.
Variable w0 : World.

Let t := validLGTMCount flags.

Hypothesis threshold_pos : 1 <= t.
Hypothesis counts_fit :
  forall m,
    count_of (stored w0 m) + Z.of_nat (calls_for m comments) <= GoInt.max_int.

Lemma Decisions_step w l1 c p l2 p' w' :
  Inv w0 comments w (l1 ++ {| th_comment := c; th_pc := p |} :: l2)%list ->
  Decisions flags w0 w (l1 ++ {| th_comment := c; th_pc := p |} :: l2)%list ->
  thread_step flags c p w = Some (p', w') ->
  Decisions flags w0 w' (l1 ++ {| th_comment := c; th_pc := p' |} :: l2)%list.
Proof.
  intros Hinv D Hs.
  pose proof (dec_reached _ _ _ _ D) as Hr.
  pose proof (dec_local _ _ _ _ D) as Hd.
  pose proof (inv_counts _ _ _ _ Hinv) as Hcnt.
  pose proof (inv_cs _ _ _ _ Hinv) as Hcs.
  pose proof (inv_total _ _ _ _ Hinv) as Htot.
  pose proof (Inv_in_cs _ _ _ _ _ _ Hinv) as Hin.
  pose proof (Inv_local_at _ _ _ _ _ _ Hinv) as Hloc.
  rewrite count_if_app in Hcs. cbn [count_if] in Hcs.
  assert (Hout : count_if in_cs l1 = 0%nat /\ count_if in_cs l2 = 0%nat).
  { destruct (in_cs {| th_comment := c; th_pc := p |}) eqn:E.
    - destruct (Hin eq_refl) as (_ & H1 & H2). auto.
    - destruct p; cbn in E; try discriminate E; cbn [thread_step] in Hs.
      + destruct (mutex w); [discriminate|]. lia.
      + discriminate Hs. }
  destruct Hout as [H1 H2].
  assert (Hothers : forall w1,
             Forall (decided_ok flags w1) l1 /\ Forall (decided_ok flags w1) l2).
  { intros w1. split; apply outside_cs_decided; assumption. }
  destruct p; cbn [thread_step] in Hs.
  - destruct (mutex w); [discriminate|]. injection Hs as <- <-.
    constructor.
    + intros m. specialize (Hr m).
      rewrite reached_for_step, committed_for_step in *.
      cbn [reported committed th_pc] in *. exact Hr.
    + apply Forall_app. split; [apply Hothers|].
      constructor; [exact I|apply Hothers].
  - destruct (db_rwlock w); [discriminate|]. injection Hs as <- <-.
    constructor.
    + intros m. specialize (Hr m).
      rewrite reached_for_step, committed_for_step in *.
      cbn [reported committed th_pc] in *. exact Hr.
    + apply Forall_app. split; [apply Hothers|].
      constructor; [exact I|apply Hothers].
  - injection Hs as <- <-.
    constructor.
    + intros m. specialize (Hr m).
      rewrite reached_for_step, committed_for_step in *.
      cbn [reported committed th_pc] in *. exact Hr.
    + apply Forall_app. split; [apply Hothers|].
      constructor; [exact I|apply Hothers].
  - assert (Hp' : match p' with AtPut _ _ _ => True | _ => False end).
    { destruct (Nat.ltb _ _); [destruct (strconv.Atoi _)|];
        injection Hs as <- _; exact I. }
    constructor.
    + intros m. specialize (Hr m).
      rewrite reached_for_step, committed_for_step in *.
      destruct p'; try contradiction.
      cbn [reported committed th_pc] in *. exact Hr.
    + apply Forall_app. split; [apply Hothers|].
      constructor; [|apply Hothers].
      destruct p'; try contradiction. exact I.
  - destruct (Hloc eq_refl) as (_ & _ & _ & Hcount). cbn [th_comment] in Hcount.
    destruct (validLGTMCount flags =? 0); [discriminate|]. injection Hs as <- <-.
    constructor.
    + intros m. specialize (Hr m).
      rewrite reached_for_step, committed_for_step in *.
      cbn [reported committed th_pc] in *. exact Hr.
    + apply Forall_app. split; [apply Hothers|].
      constructor; [|apply Hothers].
      unfold decided_ok. cbn [th_pc th_comment]. now rewrite Hcount.
  - (* tx.Commit() *)
    apply Forall_app in Hd as [_ Hd]. inversion Hd as [|x l Hdec _]; subst.
    unfold decided_ok in Hdec. cbn [th_pc th_comment] in Hdec.
    injection Hs as <- <-.
    set (mt := Iid (MergeRequest c)) in *.
    constructor.
    + intros m. specialize (Hr m). specialize (Hcnt m). specialize (Htot m).
      rewrite reached_for_step, committed_for_step in *.
      rewrite count_if_app in Htot.
      cbn [count_if reported committed th_pc] in *.
      rewrite andb_false_r in Hr, Hcnt. rewrite andb_true_r.
      unfold for_mr at 2 in Htot. cbn [th_comment] in Htot. fold mt in Htot |- *.
      destruct (Z.eqb_spec mt m) as [<-|Hne].
      * pose proof (count_of_range (stored w mt)) as [Hlo _].
        pose proof (count_if_and_le (for_mr mt) committed l1).
        pose proof (count_if_and_le (for_mr mt) committed l2).
        pose proof (counts_fit mt). unfold committed_for in *.
        rewrite incr_below_max in Hdec by lia. rewrite Hcnt in Hdec.
        fold t in Hdec, Hr |- *.
        replace (count_of (stored w0 mt)
                 + Z.of_nat (count_if (fun t0 => for_mr mt t0 && committed t0) l1
                             + 1
                             + count_if (fun t0 => for_mr mt t0 && committed t0) l2))
          with (count_of (stored w0 mt)
                + Z.of_nat (count_if (fun t0 => for_mr mt t0 && committed t0) l1
                            + 0
                            + count_if (fun t0 => for_mr mt t0 && committed t0) l2)
                + 1) by lia.
        rewrite (div_succ_rem _ t threshold_pos). rewrite <- Hdec.
        destruct checkStatus; cbn [andb]; lia.
      * cbn [andb]. exact Hr.
    + apply Forall_app. split; [apply Hothers|].
      constructor; [exact I|apply Hothers].
  - injection Hs as <- <-.
    constructor.
    + intros m. specialize (Hr m).
      rewrite reached_for_step, committed_for_step in *.
      cbn [reported committed th_pc] in *. exact Hr.
    + apply Forall_app. split; [apply Hothers|].
      constructor; [exact I|apply Hothers].
  - discriminate.
Qed.

End DecisionFacts.

Lemma Decisions_start flags comments w0 :
  Decisions flags w0 w0 (spawn comments).
Proof.
  assert (Hcs : forall cs, count_if in_cs (spawn cs) = 0%nat).
  { induction cs as [|c cs IH]; cbn; auto. }
  assert (Hz : forall m cs, reached_for m (spawn cs) = 0%nat
                            /\ committed_for m (spawn cs) = 0%nat).
  { unfold reached_for, committed_for.
    induction cs as [|c cs [IH1 IH2]]; cbn [spawn map count_if]; auto.
    fold (spawn cs). rewrite IH1, IH2. cbn [reported committed th_pc].
    now rewrite andb_false_r. }
  constructor.
  - intros m. destruct (Hz m comments) as [-> ->]. cbn [Z.of_nat].
    rewrite Z.add_0_r. lia.
  - apply outside_cs_decided, Hcs.
Qed.



Example concurrent_sample_decisions :
  let c := Sample.approval "LGTM" "can_be_merged" in
  let r1 := run_thread Sample.flags 7 c AtLock Sample.world in
  let r2 := run_thread Sample.flags 7 c AtLock (snd r1) in
  (fst r1, fst r2) = (Finished false, Finished true).
Proof. vm_compute. reflexivity. Qed.

(** ** The request an approval sends *)



(** ** Endpoints are unambiguous *)

Lemma uint_no_slash d :
  strings.all_bytes (fun c => negb (Ascii.eqb c "/")) (NilEmpty.string_of_uint d)
  = true.
Proof. induction d; cbn [NilEmpty.string_of_uint strings.all_bytes]; auto. Qed.

Lemma Itoa_no_slash z :
  strings.all_bytes (fun c => negb (Ascii.eqb c "/")) (strconv.Itoa z) = true.
Proof.
  unfold strconv.Itoa.
  destruct z as [|p|p]; cbn [Z.to_int NilZero.string_of_int]; [reflexivity| |].
  - unfold NilZero.string_of_uint.
    destruct (Pos.to_uint p) eqn:E; try reflexivity; rewrite <- E;
      apply uint_no_slash.
  - cbn [strings.all_bytes]. unfold NilZero.string_of_uint.
    destruct (Pos.to_uint p) eqn:E; try reflexivity; rewrite <- E;
      apply uint_no_slash.
Qed.

Lemma split_at_slash (s s' r r' : string) :
  strings.all_bytes (fun c => negb (Ascii.eqb c "/")) s = true ->
  strings.all_bytes (fun c => negb (Ascii.eqb c "/")) s' = true ->
  s +:+ String "/" r = s' +:+ String "/" r' ->
  s = s' /\ r = r'.
Proof.
  revert s'. induction s as [|c s IH]; intros [|c' s'] Hs Hs'.
  - intros [= H]. auto.
  - rewrite append_cons. intros [= Hc _]. subst c'.
    cbn [strings.all_bytes] in Hs'. discriminate.
  - rewrite append_cons. intros [= Hc _]. subst c.
    cbn [strings.all_bytes] in Hs. discriminate.
  - rewrite !append_cons. intros [= Hc H]. subst c'.
    cbn [strings.all_bytes] in Hs, Hs'.
    apply andb_prop in Hs as [_ Hs]. apply andb_prop in Hs' as [_ Hs'].
    destruct (IH s' Hs Hs' H) as [-> ->]. auto.
Qed.

(** X20. The path [acceptMergeRequest] appends determines the project and
    the merge request: two calls append the same path only when they are
    for the same project id and the same merge-request iid. *)
Theorem merge_path_inj p i p' i' :
  merge_path p i = merge_path p' i' -> p = p' /\ i = i'.
Proof.
  unfold merge_path. intros H.
  apply append_inj_l in H.
  apply (split_at_slash (strconv.Itoa p) (strconv.Itoa p')
           ("merge_requests/" +:+ strconv.Itoa i +:+ "/merge")
           ("merge_requests/" +:+ strconv.Itoa i' +:+ "/merge")
           (Itoa_no_slash p) (Itoa_no_slash p')) in H as [Hp H].
  apply append_inj_l in H.
  apply (split_at_slash (strconv.Itoa i) (strconv.Itoa i') "merge" "merge"
           (Itoa_no_slash i) (Itoa_no_slash i')) in H as [Hi _].
  split; now apply Itoa_inj.
Qed.

Lemma merge_path_inj_witness : 7 = 7 /\ -42 = -42.
Proof. apply (merge_path_inj 7 (-42) 7 (-42)). reflexivity. Defined.
